(** * prune.py: configuration, set-up and hand-over to iterative pruning

    A shallow embedding of [src/prune.py].  The script is a sequence of calls
    into collaborators (torch, argparse, the repository's own [mask],
    [utils], [augment], [dataset] and [networks] modules).  Every such call is
    recorded as an [Event]; whether it raises, and what it returns, is read
    from a [World].  The control flow between the calls, the values handed to
    them and the exceptions raised by the script itself are modelled as
    written.

    Python floats that the script only compares with 0.0 and 1.0, halves or
    forwards are modelled by exact rationals ([Q]). *)

From Stdlib Require Import ZArith QArith Qround Qabs List String Ascii Bool Lia.
From stdpp Require Import base option list gmap strings pretty.

Local Open Scope string_scope.
Local Open Scope list_scope.

(** ** Exceptions *)

Inductive Exn : Type :=
| KeyError (key : string)
| NameError (name : string)
| ValueError (msg : string)
| AttributeError (msg : string)
| OverflowError (msg : string)
| RuntimeError (msg : string)
| IndexError (msg : string)
| SystemExit (code : Z)
| ExternalError (what : string).

(** ** The argparse namespace *)

Record Args : Type := mkArgs {
  arg_local_rank : Z;
  arg_num_epochs : Z;
  arg_model_name : string;
  arg_band : string;
  arg_pretrained : bool;
  arg_smallset : bool;
  arg_mask_type : string;
  arg_batch_size : Z;
  arg_ratio : Z;
  arg_lr : Q;
  arg_pruning_ft : bool;
  arg_pruning_test : bool;
  arg_global_prune : bool;
  arg_conv2d_prune_amount : Q;
  arg_linear_prune_amount : Q;
  arg_pruning_rounds : Z;
  arg_seed : Z;
  arg_checkpoint_path : string
}.

(** [args.band = v] *)
Definition set_band (v : string) (a : Args) : Args :=
  mkArgs (arg_local_rank a) (arg_num_epochs a) (arg_model_name a) v
         (arg_pretrained a) (arg_smallset a) (arg_mask_type a)
         (arg_batch_size a) (arg_ratio a) (arg_lr a) (arg_pruning_ft a)
         (arg_pruning_test a) (arg_global_prune a)
         (arg_conv2d_prune_amount a) (arg_linear_prune_amount a)
         (arg_pruning_rounds a) (arg_seed a) (arg_checkpoint_path a).

(** Used only to compare two runs: the namespace with another
    [num_epochs]. *)
Definition set_num_epochs (v : Z) (a : Args) : Args :=
  mkArgs (arg_local_rank a) v (arg_model_name a) (arg_band a)
         (arg_pretrained a) (arg_smallset a) (arg_mask_type a)
         (arg_batch_size a) (arg_ratio a) (arg_lr a) (arg_pruning_ft a)
         (arg_pruning_test a) (arg_global_prune a)
         (arg_conv2d_prune_amount a) (arg_linear_prune_amount a)
         (arg_pruning_rounds a) (arg_seed a) (arg_checkpoint_path a).

(** ** Augmentation options (the two dict literals of [main]) *)

Record AugOpt : Type := mkAugOpt {
  rz_interp : list string;
  loadSize : Z;
  blur_prob : Q;
  blur_sig : list Q;
  jpg_prob : Q;
  jpg_method : list string;
  jpg_qual : list Z
}.

(** Python's [int(x)] on a float: truncation towards zero. *)
Definition py_int (q : Q) : Z := Z.quot (Qnum q) (Zpos (Qden q)).

Definition train_opt : AugOpt :=
  {| rz_interp := ["bilinear"];
     loadSize := 256;
     blur_prob := 1 # 10;
     blur_sig := [0%Q; 3%Q];
     jpg_prob := 1 # 10;
     jpg_method := ["cv2"; "pil"];
     jpg_qual := [30%Z; 100%Z] |}.

Definition val_opt : AugOpt :=
  {| rz_interp := ["bilinear"];
     loadSize := 256;
     blur_prob := 1 # 10;
     blur_sig := [((0 + 3) / 2)%Q];
     jpg_prob := 1 # 10;
     jpg_method := ["pil"];
     jpg_qual := [py_int ((30 + 100) / 2)%Q] |}.

(** ** Mask generators (classes of [mask.py], constructed by [main]) *)

Inductive MaskGenerator : Type :=
| FrequencyMaskGenerator (ratio : Q) (band : string)
| PixelMaskGenerator (ratio : Q)
| PatchMaskGenerator (ratio : Q).

(** ** Models and checkpoints

    A module is represented by its parameters.  Every backbone built by
    [main] has a classification head [fc]; [state_dict] lists the backbone's
    entries followed by the head's under the prefix ["fc."]. *)

(** The element types of the tensors that occur. *)
Inductive DType : Type := Float16 | BFloat16 | Float32 | Float64 | Int64.

#[global] Instance DType_eq_dec : EqDecision DType.
Proof. solve_decision. Defined.

(** A tensor: its shape (the empty list for a zero-dimensional tensor such
    as BatchNorm's [num_batches_tracked]), its element type and its elements
    in row-major order. *)
Record Tensor : Type := mkTensor {
  t_shape : list nat;
  t_dtype : DType;
  t_data : list Q
}.

Definition StateDict : Type := list (string * Tensor).

Record Head : Type := mkHead {
  in_features : nat;
  head_params : StateDict
}.

Record Model : Type := mkModel {
  backbone : StateDict;
  fc : Head
}.

(** [model.fc = new_head] *)
Definition set_fc (m : Model) (h : Head) : Model :=
  {| backbone := backbone m; fc := h |}.

Definition prefix_keys (p : string) (sd : StateDict) : StateDict :=
  map (fun kt => (p +:+ fst kt, snd kt)) sd.

Definition state_dict (m : Model) : StateDict :=
  backbone m ++ prefix_keys "fc." (head_params (fc m)).

(** DistributedDataParallel keeps the wrapped model as [module]. *)
Definition ddp_state_dict (m : Model) : StateDict :=
  prefix_keys "module." (state_dict m).

Fixpoint sd_lookup (k : string) (sd : StateDict) : option Tensor :=
  match sd with
  | [] => None
  | (k', t) :: rest => if String.eqb k k' then Some t else sd_lookup k rest
  end.

Definition sd_has (k : string) (sd : StateDict) : bool :=
  match sd_lookup k sd with Some _ => true | None => false end.

Definition shape_eqb (s1 s2 : list nat) : bool :=
  bool_decide (s1 = s2).

(** ** Events: the calls the script makes into its collaborators *)

Inductive Event : Type :=
| EvImport (module : string)
| EvSetEnv (key value : string)
| EvParseArgs
| EvPrintConfig (ratio : Z) (a : Args)
| EvTorchManualSeed (seed : Z)
| EvCudaManualSeedAll (seed : Z)
| EvNumpySeed (seed : Z)
| EvRandomSeed (seed : Z)
| EvSetDevice (local_rank : Z)
| EvInitProcessGroup (backend : string)
| EvMaskGenerator (g : MaskGenerator)
| EvImageAugmentor (opt : AugOpt)
| EvTrainAugment (opt : AugOpt) (g : option MaskGenerator) (a : Args)
| EvValAugment (opt : AugOpt) (g : option MaskGenerator) (a : Args)
| EvForenSynths (root : string)
| EvRandomSample (population : nat)
| EvSubset
| EvDistributedSampler (seed : Z)
| EvDataLoader (train : bool) (batch_size : Z)
| EvResnet50 (pretrained : bool)
| EvResnet50Mod (pretrained : bool) (stride0 : Z)
| EvCLIPModel (name : string) (num_classes : nat)
| EvLinear (inputs outputs : nat)
| EvChannelLinear (inputs outputs : nat)
| EvToDevice (local_rank : Z)
| EvDistributedDataParallel
| EvBCEWithLogitsLoss
| EvAdamW (lr : Q)
| EvMultiStepLR
| EvTorchLoad (path : string)
| EvLoadStateDict (head_only : bool)
| EvIterativePruningFinetuning (m : Model) (lr : Q) (a : Args).

(** ** The world: what the collaborators do *)

Record World : Type := mkWorld {
  (** [os.environ] when the interpreter starts *)
  w_environ : gmap string string;
  (** the names bound by [from mask import *] and [from utils import *] *)
  w_star_names : list string;
  (** the exception a collaborator call raises, if any *)
  w_fail : Event -> option Exn;
  (** [len(ForenSynths(root, ...))] *)
  w_dataset_len : string -> nat;
  (** [resnet50(pretrained)], [_resnet50(pretrained, stride0)] and
      [CLIPModel(name, num_classes)] *)
  w_resnet50 : bool -> Model;
  w_resnet50_mod : bool -> Z -> Model;
  w_CLIPModel : string -> nat -> Model;
  (** the parameters of a freshly initialised [nn.Linear(i, o)] and
      [ChannelLinear(i, o)] *)
  w_Linear : nat -> nat -> StateDict;
  w_ChannelLinear : nat -> nat -> StateDict;
  (** [torch.load(path)] *)
  w_torch_load : string -> gmap string StateDict;
  (** [w_cast dst src x]: the element [x] of a tensor of type [src] as
      [Tensor.copy_] stores it in a tensor of type [dst] *)
  w_cast : DType -> DType -> Q -> Q
}.

(** ** torch's [Module.load_state_dict(sd)] with the default [strict=True]

    The library's behaviour (torch/nn/modules/module.py), against the
    module's own entries [own], parameters and persistent buffers alike.
    For every own entry whose name is in [sd], in order:
    - a one-dimensional checkpoint tensor offered to a zero-dimensional
      entry is replaced by its first element, [input_param[0]]; when it has
      no element this raises IndexError on the spot;
    - if the shapes then differ the name is recorded as a size mismatch;
    - otherwise [param.copy_(input_param)] writes the values into the own
      tensor, which keeps its shape and its element type: the values are
      converted to it.
    Names of [own] absent from [sd] are missing keys, names of [sd] absent
    from [own] are unexpected keys.  After the traversal any size mismatch,
    missing key or unexpected key raises RuntimeError. *)
Definition missing_keys (own sd : StateDict) : list string :=
  filter (fun k => sd_has k sd = false) (map fst own).

Definition unexpected_keys (own sd : StateDict) : list string :=
  filter (fun k => sd_has k own = false) (map fst sd).

(** [input_param[0]] where the own tensor has no dimension and the
    checkpoint's has one; [input_param] otherwise. *)
Definition first_element (own src : Tensor) : Tensor :=
  match t_shape own, t_shape src with
  | [], [_] => mkTensor [] (t_dtype src) (take 1 (t_data src))
  | _, _ => src
  end.

(** [input_param[0]] is out of bounds. *)
Definition no_first_element (own src : Tensor) : bool :=
  match t_shape own, t_shape src with
  | [], [O] => true
  | _, _ => false
  end.

Definition index_errors (own sd : StateDict) : list string :=
  omap (fun kt : string * Tensor =>
          match sd_lookup (fst kt) sd with
          | Some src =>
              if no_first_element (snd kt) src then Some (fst kt) else None
          | None => None
          end) own.

Definition size_mismatch (own sd : StateDict) : list string :=
  omap (fun kt : string * Tensor =>
          match sd_lookup (fst kt) sd with
          | Some src =>
              if shape_eqb (t_shape (snd kt))
                           (t_shape (first_element (snd kt) src))
              then None
              else Some (fst kt)
          | None => None
          end) own.

Definition loadable (own sd : StateDict) : bool :=
  match missing_keys own sd, unexpected_keys own sd, size_mismatch own sd with
  | [], [], [] => true
  | _, _, _ => false
  end.

Definition load_error : Exn := RuntimeError "Error(s) in loading state_dict".

Definition index_error : Exn :=
  IndexError "index 0 is out of bounds for dimension 0 with size 0".

(** The exception the load raises, if any. *)
Definition load_check (own sd : StateDict) : option Exn :=
  match index_errors own sd with
  | _ :: _ => Some index_error
  | [] => if loadable own sd then None else Some load_error
  end.

(** [own.copy_(src)]: the own tensor keeps its shape and element type. *)
Definition copy_ (W : World) (own src : Tensor) : Tensor :=
  mkTensor (t_shape own) (t_dtype own)
    (if decide (t_dtype own = t_dtype src) then t_data src
     else map (w_cast W (t_dtype own) (t_dtype src)) (t_data src)).

(** The module's own entries after a successful load; [p] is the prefix
    under which [sd] names them. *)
Definition copy_from (W : World) (p : string) (sd own : StateDict)
  : StateDict :=
  map (fun kt =>
         (fst kt,
          match sd_lookup (p +:+ fst kt) sd with
          | Some src => copy_ W (snd kt) (first_element (snd kt) src)
          | None => snd kt
          end)) own.

Definition load_state_dict (W : World) (own sd : StateDict)
  : Exn + StateDict :=
  match load_check own sd with
  | Some e => inl e
  | None => inr (copy_from W "" sd own)
  end.

(** [model.module.fc.load_state_dict(sd)]: only the head is written. *)
Definition load_head (W : World) (m : Model) (sd : StateDict) : Exn + Model :=
  match load_state_dict W (head_params (fc m)) sd with
  | inl e => inl e
  | inr new => inr (set_fc m (mkHead (in_features (fc m)) new))
  end.

(** [model.load_state_dict(sd)] on the wrapped model: every entry is
    written, the backbone's and the head's. *)
Definition load_full (W : World) (m : Model) (sd : StateDict) : Exn + Model :=
  match load_check (ddp_state_dict m) sd with
  | Some e => inl e
  | None =>
      inr {| backbone := copy_from W "module." sd (backbone m);
             fc := mkHead (in_features (fc m))
                     (copy_from W "module.fc." sd (head_params (fc m))) |}
  end.

(** ** Computations: a trace of events and an exception or a value *)

Definition M (A : Type) : Type := list Event * (Exn + A).

Definition ret {A} (a : A) : M A := ([], inr a).

Definition raise {A} (e : Exn) : M A := ([], inl e).

Definition bind {A B} (m : M A) (k : A -> M B) : M B :=
  match m with
  | (t, inl e) => (t, inl e)
  | (t, inr a) => (t ++ fst (k a), snd (k a))
  end.

#[global] Instance M_ret : MRet M := @ret.
#[global] Instance M_bind : MBind M := fun A B k m => bind m k.

Definition lift {A} (r : Exn + A) : M A := ([], r).

(** An effect that cannot raise. *)
Definition emit (ev : Event) : M unit := ([ev], inr tt).

(** A call into a collaborator. *)
Definition call (W : World) (ev : Event) : M unit :=
  match w_fail W ev with
  | Some e => ([ev], inl e)
  | None => ([ev], inr tt)
  end.

Definition trace {A} (m : M A) : list Event := fst m.
Definition outcome {A} (m : M A) : Exn + A := snd m.

(** ** Module level (lines 2-32) *)

(** Name lookup for the names [prune.py] uses without binding them itself:
    they resolve only if a star import brought them in. *)
Definition global (W : World) (name : string) : M unit :=
  if bool_decide (name ∈ w_star_names W) then ret tt
  else raise (NameError name).

Definition imports : list string :=
  ["torch"; "torch.nn"; "torch.optim"; "torch.utils.data"; "torchvision";
   "tqdm"; "numpy"; "sklearn.metrics"; "argparse"; "torchvision.models";
   "re"; "torch.distributed"; "torch.nn.parallel";
   "torch.utils.data.distributed"; "dataset"; "augment"; "mask";
   "earlystop"; "utils"; "networks.resnet"; "networks.resnet_mod";
   "networks.clip_models"; "os"].

Fixpoint run_imports (W : World) (ms : list string) : M unit :=
  match ms with
  | [] => ret tt
  | m :: rest => call W (EvImport m);; run_imports W rest
  end.

(** [os.environ[key]] after the two assignments of lines 29-30. *)
Definition environ_at_32 (W : World) : gmap string string :=
  <["NCCL_DEBUG" := "WARN"]> (<["NCCL_BLOCKING_WAIT" := "1"]> (w_environ W)).

Definition module_level (W : World) : M unit :=
  run_imports W imports;;
  emit (EvSetEnv "NCCL_BLOCKING_WAIT" "1");;
  emit (EvSetEnv "NCCL_DEBUG" "WARN");;
  match environ_at_32 W !! "LOCAL_RANK" with
  | Some _ => ret tt
  | None => raise (KeyError "LOCAL_RANK")
  end.

(** ** Argument parsing (lines 155-261)

    A command line gives, for each option, the value supplied (already
    converted by the option's [type]) or nothing; flags are either present or
    not.  This is a command line that argparse can read: one with an option
    the parser does not declare, with a value its [type] cannot convert, or
    with [-h], has no [CommandLine]; the parser's exit on those is the
    failure of the call [EvParseArgs] in [entry], decided by the world.
    [parse_args] is what remains: the [choices] tests and the defaults. *)

Record CommandLine : Type := mkCommandLine {
  cl_local_rank : option Z;
  cl_num_epochs : option Z;
  cl_model_name : option string;
  cl_band : option string;
  cl_pretrained : bool;
  cl_smallset : bool;
  cl_mask_type : option string;
  cl_batch_size : option Z;
  cl_ratio : option Z;
  cl_lr : option Q;
  cl_pruning_ft : bool;
  cl_pruning_test : bool;
  cl_global_prune : bool;
  cl_conv2d_prune_amount : option Q;
  cl_linear_prune_amount : option Q;
  cl_pruning_rounds : option Z;
  cl_seed : option Z;
  cl_checkpoint_path : option string
}.

Definition model_name_choices : list string :=
  ["RN18"; "RN34"; "RN50"; "RN50_mod"; "clip"].
Definition band_choices : list string := ["all"; "low"; "mid"; "high"].
Definition mask_type_choices : list string :=
  ["pixel"; "spectral"; "patch"; "nomask"].

(** A supplied value outside [choices] makes the parser exit with status 2;
    a default is not checked. *)
Definition choice (choices : list string) (dflt : string) (v : option string)
  : Exn + string :=
  match v with
  | None => inr dflt
  | Some s => if bool_decide (s ∈ choices) then inr s else inl (SystemExit 2)
  end.

Definition parse_args (cl : CommandLine) : Exn + Args :=
  match choice model_name_choices "RN50" (cl_model_name cl) with
  | inl e => inl e
  | inr model_name =>
  match choice band_choices "all" (cl_band cl) with
  | inl e => inl e
  | inr band =>
  match choice mask_type_choices "spectral" (cl_mask_type cl) with
  | inl e => inl e
  | inr mask_type =>
      inr {| arg_local_rank := default 0%Z (cl_local_rank cl);
             arg_num_epochs := default 2%Z (cl_num_epochs cl);
             arg_model_name := model_name;
             arg_band := band;
             arg_pretrained := cl_pretrained cl;
             arg_smallset := cl_smallset cl;
             arg_mask_type := mask_type;
             arg_batch_size := default 64%Z (cl_batch_size cl);
             arg_ratio := default 50%Z (cl_ratio cl);
             arg_lr := default (1 # 10000) (cl_lr cl);
             arg_pruning_ft := cl_pruning_ft cl;
             arg_pruning_test := cl_pruning_test cl;
             arg_global_prune := cl_global_prune cl;
             arg_conv2d_prune_amount :=
               default (2 # 10) (cl_conv2d_prune_amount cl);
             arg_linear_prune_amount :=
               default (1 # 10) (cl_linear_prune_amount cl);
             arg_pruning_rounds := default 1%Z (cl_pruning_rounds cl);
             arg_seed := default 44%Z (cl_seed cl);
             arg_checkpoint_path :=
               default "./checkpoints/mask_0/rn50ft.pth"
                       (cl_checkpoint_path cl) |}
  end end end.

(** ** [main] (lines 34-151) *)

(** The arguments of one call of [main]. *)
Record Kwargs : Type := mkKwargs {
  local_rank : Z;
  nhead : Z;
  num_layers : Z;
  num_epochs : Z;
  ratio : Q;
  batch_size : Z;
  model_name : string;
  band : string;
  mask_type : option string;
  pretrained : bool;
  args : option Args
}.

(** The defaults of the signature. *)
Definition main_defaults : Kwargs :=
  {| local_rank := 0; nhead := 8; num_layers := 6; num_epochs := 10000;
     ratio := 50; batch_size := 64; model_name := "RN50"; band := "all";
     mask_type := None; pretrained := false; args := None |}.

Definition Qlt_bool (x y : Q) : bool := negb (Qle_bool y x).

(** Lines 48-58: [args.seed], the four seeds, the device and the process
    group.  [random] is not imported by [prune.py] itself. *)
Definition setup (W : World) (k : Kwargs) : M Args :=
  a ← match args k with
      | Some a => ret a
      | None =>
          raise (AttributeError "'NoneType' object has no attribute 'seed'")
      end;
  let seed := arg_seed a in
  call W (EvTorchManualSeed seed);;
  call W (EvCudaManualSeedAll seed);;
  call W (EvNumpySeed seed);;
  global W "random";;
  call W (EvRandomSeed seed);;
  call W (EvSetDevice (local_rank k));;
  call W (EvInitProcessGroup "nccl");;
  ret a.

(** Lines 82-93.  The name in the [raise] statement is [valueError]; it is
    looked up before its argument is built.  Were a star import to bind it,
    the statement would raise whatever that object makes of the call. *)
Definition make_mask_generator (W : World) (k : Kwargs)
  : M (option MaskGenerator) :=
  if Qlt_bool 1 (ratio k) || Qlt_bool (ratio k) 0 then
    global W "valueError";;
    raise (ExternalError "valueError")
  else if bool_decide (mask_type k = Some "spectral") then
    global W "FrequencyMaskGenerator";;
    let g := FrequencyMaskGenerator (ratio k) (band k) in
    call W (EvMaskGenerator g);;
    ret (Some g)
  else if bool_decide (mask_type k = Some "pixel") then
    global W "PixelMaskGenerator";;
    let g := PixelMaskGenerator (ratio k) in
    call W (EvMaskGenerator g);;
    ret (Some g)
  else if bool_decide (mask_type k = Some "patch") then
    global W "PatchMaskGenerator";;
    let g := PatchMaskGenerator (ratio k) in
    call W (EvMaskGenerator g);;
    ret (Some g)
  else ret None.

Definition train_root : string :=
  "/home/users/chandler_doloriel/scratch/Datasets/Wang_CVPR2020/training".
Definition val_root : string :=
  "/home/users/chandler_doloriel/scratch/Datasets/Wang_CVPR2020/validation".

(** Lines 95-110: the two transforms, the two datasets and their loaders. *)
Definition data_loaders (W : World) (k : Kwargs) (a : Args)
    (mask_generator : option MaskGenerator) : M unit :=
  global W "train_augment";;
  call W (EvImageAugmentor train_opt);;
  call W (EvTrainAugment train_opt mask_generator a);;
  global W "val_augment";;
  call W (EvImageAugmentor val_opt);;
  call W (EvValAugment val_opt mask_generator a);;
  call W (EvForenSynths train_root);;
  (if arg_smallset a then
     global W "random";;
     call W (EvRandomSample (w_dataset_len W train_root));;
     call W EvSubset
   else ret tt);;
  call W (EvDistributedSampler (arg_seed a));;
  call W (EvDataLoader true (batch_size k));;
  call W (EvForenSynths val_root);;
  call W (EvDataLoader false (batch_size k)).

(** Lines 113-126: the backbone by name, with a fresh one-output head for
    the two residual networks. *)
Definition build_model (W : World) (k : Kwargs) : M Model :=
  model ←
    (if String.eqb (model_name k) "RN50" then
       call W (EvResnet50 (pretrained k));;
       let model := w_resnet50 W (pretrained k) in
       let n := in_features (fc model) in
       call W (EvLinear n 1);;
       ret (set_fc model (mkHead n (w_Linear W n 1)))
     else if String.eqb (model_name k) "RN50_mod" then
       call W (EvResnet50Mod (pretrained k) 1);;
       let model := w_resnet50_mod W (pretrained k) 1 in
       let n := in_features (fc model) in
       call W (EvChannelLinear n 1);;
       ret (set_fc model (mkHead n (w_ChannelLinear W n 1)))
     else if String.prefix "clip" (model_name k) then
       let clip_model_name := "ViT-L/14" in
       call W (EvCLIPModel clip_model_name 1);;
       ret (w_CLIPModel W clip_model_name 1)
     else
       raise (ValueError ("Model " +:+ model_name k +:+ " not recognized!")));
  call W (EvToDevice (local_rank k));;
  call W EvDistributedDataParallel;;
  ret model.

(** Lines 128-130. *)
Definition optimisation (W : World) (a : Args) : M unit :=
  call W EvBCEWithLogitsLoss;;
  call W (EvAdamW (arg_lr a));;
  call W EvMultiStepLR.

(** Lines 132-139: both tests read the namespace, not [main]'s own
    [pretrained] and [model_name]. *)
Definition restore (W : World) (a : Args) (model : Model) : M Model :=
  if negb (arg_pretrained a) then
    let checkpoint_path := arg_checkpoint_path a in
    call W (EvTorchLoad checkpoint_path);;
    let checkpoint := w_torch_load W checkpoint_path in
    sd ← match checkpoint !! "model_state_dict" with
         | Some sd => ret sd
         | None => raise (KeyError "model_state_dict")
         end;
    if String.eqb (arg_model_name a) "clip" then
      emit (EvLoadStateDict true);;
      lift (load_head W model sd)
    else
      emit (EvLoadStateDict false);;
      lift (load_full W model sd)
  else ret model.

(** Lines 141-151. *)
Definition prune (W : World) (a : Args) (model : Model) : M unit :=
  global W "iterative_pruning_finetuning";;
  call W (EvIterativePruningFinetuning model (arg_lr a) a).

(** Lines 132-151 together. *)
Definition restore_and_prune (W : World) (a : Args) (model : Model) : M unit :=
  model ← restore W a model;
  prune W a model.

Definition main (W : World) (k : Kwargs) : M unit :=
  a ← setup W k;
  mask_generator ← make_mask_generator W k;
  data_loaders W k a mask_generator;;
  model ← build_model W k;
  optimisation W a;;
  restore_and_prune W a model.

(** ** The entry point (lines 261-303) *)

Definition lower_ascii (c : ascii) : ascii :=
  let n := nat_of_ascii c in
  if (65 <=? n)%nat && (n <=? 90)%nat then ascii_of_nat (n + 32) else c.

Fixpoint str_lower (s : string) : string :=
  match s with
  | EmptyString => EmptyString
  | String c rest => String (lower_ascii c) (str_lower rest)
  end.

(** [s.replace(c, '')] for a one-character [c]. *)
Fixpoint str_remove (c : ascii) (s : string) : string :=
  match s with
  | EmptyString => EmptyString
  | String d rest =>
      if Ascii.eqb c d then str_remove c rest else String d (str_remove c rest)
  end.

(** The variables assigned between [parse_args] and the call of [main]. *)
Record Locals : Type := mkLocals {
  l_model_name : string;
  l_finetune : string;
  l_band : string;
  l_ratio : Z;
  l_ckpt_folder : string;
  l_args : Args
}.

Definition locals (a : Args) : Locals :=
  let model_name := str_remove "-" (str_remove "/" (str_lower (arg_model_name a))) in
  let finetune := if arg_pretrained a then "ft" else "" in
  let band := if String.eqb (arg_band a) "all" then "" else arg_band a in
  if negb (String.eqb (arg_mask_type a) "nomask") then
    let ratio := arg_ratio a in
    mkLocals model_name finetune band ratio
             ("./checkpoints/mask_" +:+ pretty ratio) a
  else
    let ratio := 0%Z in
    mkLocals model_name finetune band ratio
             ("./checkpoints/mask_" +:+ pretty ratio) (set_band "None" a).

(** [ratio/100] on an int: the correctly rounded double, or OverflowError
    once the quotient rounds to 2^1024 or more. *)
Definition double_overflow : Z := (2 ^ 1024 - 2 ^ 970)%Z.

Definition true_div_100 (n : Z) : Exn + Q :=
  if (100 * double_overflow <=? Z.abs n)%Z then
    inl (OverflowError "integer division result too large for a float")
  else inr (Qred (n # 100)).

(** The keyword arguments of the call at lines 293-303. *)
Definition kwargs (L : Locals) : Exn + Kwargs :=
  match true_div_100 (l_ratio L) with
  | inl e => inl e
  | inr r =>
      let a := l_args L in
      inr {| local_rank := arg_local_rank a;
             nhead := nhead main_defaults;
             num_layers := num_layers main_defaults;
             num_epochs := 5;
             ratio := r;
             batch_size := arg_batch_size a;
             model_name := arg_model_name a;
             band := arg_band a;
             mask_type := Some (arg_mask_type a);
             pretrained := arg_pretrained a;
             args := Some a |}
  end.

(** [parser.parse_args()] is the call [EvParseArgs], which may exit on its
    own, followed by the tests of [parse_args]. *)
Definition entry (W : World) (cl : CommandLine) : M unit :=
  call W EvParseArgs;;
  a ← lift (parse_args cl);
  let L := locals a in
  emit (EvPrintConfig (l_ratio L) (l_args L));;
  k ← lift (kwargs L);
  main W k.

(** Running the file as a script. *)
Definition program (W : World) (cl : CommandLine) : M unit :=
  module_level W;;
  entry W cl.

(** ** A concrete world, used to run the definitions

    One GPU process with [LOCAL_RANK=0]; the star imports bind exactly the
    names [prune.py] takes from them; no collaborator raises; the networks
    are tiny stand-ins with the right layout, and their elements (0 and 1)
    are the same in every element type. *)

Definition zeros (shape : list nat) : Tensor :=
  mkTensor shape Float32 (repeat 0%Q (foldr Nat.mul 1%nat shape)).

Definition ones (shape : list nat) : Tensor :=
  mkTensor shape Float32 (repeat 1%Q (foldr Nat.mul 1%nat shape)).

Definition linear_params (t : list nat -> Tensor) (i o : nat) : StateDict :=
  [("weight", t [o; i]); ("bias", t [o])].

Definition tiny_resnet : Model :=
  {| backbone := [("conv1.weight", zeros [2; 3; 1; 1]%nat)];
     fc := mkHead 2 (linear_params zeros 2 10) |}.

Definition tiny_clip : Model :=
  {| backbone := [("model.visual.proj", zeros [2; 2]%nat)];
     fc := mkHead 2 (linear_params zeros 2 1) |}.

(** A checkpoint of the wrapped residual network, and one of a head alone. *)
Definition full_checkpoint : StateDict :=
  [("module.conv1.weight", ones [2; 3; 1; 1]%nat);
   ("module.fc.weight", ones [1; 2]%nat);
   ("module.fc.bias", ones [1]%nat)].

Definition head_checkpoint : StateDict := linear_params ones 2 1.

(** A head checkpoint for three inputs instead of two. *)
Definition wide_head_checkpoint : StateDict := linear_params ones 3 1.

Definition star_names : list string :=
  ["random"; "FrequencyMaskGenerator"; "PixelMaskGenerator";
   "PatchMaskGenerator"; "train_augment"; "val_augment";
   "iterative_pruning_finetuning"].

Definition W0 : World :=
  {| w_environ := {["LOCAL_RANK" := "0"]};
     w_star_names := star_names;
     w_fail := fun _ => None;
     w_dataset_len := fun _ => 1000%nat;
     w_resnet50 := fun _ => tiny_resnet;
     w_resnet50_mod := fun _ _ => tiny_resnet;
     w_CLIPModel := fun _ _ => tiny_clip;
     w_Linear := linear_params zeros;
     w_ChannelLinear := linear_params zeros;
     w_torch_load := fun path =>
       if String.eqb path "head.pth" then
         {["model_state_dict" := head_checkpoint]}
       else if String.eqb path "wide.pth" then
         {["model_state_dict" := wide_head_checkpoint]}
       else {["model_state_dict" := full_checkpoint]};
     w_cast := fun _ _ x => x |}.

(** The command line with no option at all. *)
Definition no_options : CommandLine :=
  mkCommandLine None None None None false false None None None None
                false false false None None None None None.

Definition with_ratio (r : Z) (cl : CommandLine) : CommandLine :=
  mkCommandLine (cl_local_rank cl) (cl_num_epochs cl) (cl_model_name cl)
    (cl_band cl) (cl_pretrained cl) (cl_smallset cl) (cl_mask_type cl)
    (cl_batch_size cl) (Some r) (cl_lr cl) (cl_pruning_ft cl)
    (cl_pruning_test cl) (cl_global_prune cl) (cl_conv2d_prune_amount cl)
    (cl_linear_prune_amount cl) (cl_pruning_rounds cl) (cl_seed cl)
    (cl_checkpoint_path cl).

Definition with_model_name (s : string) (cl : CommandLine) : CommandLine :=
  mkCommandLine (cl_local_rank cl) (cl_num_epochs cl) (Some s)
    (cl_band cl) (cl_pretrained cl) (cl_smallset cl) (cl_mask_type cl)
    (cl_batch_size cl) (cl_ratio cl) (cl_lr cl) (cl_pruning_ft cl)
    (cl_pruning_test cl) (cl_global_prune cl) (cl_conv2d_prune_amount cl)
    (cl_linear_prune_amount cl) (cl_pruning_rounds cl) (cl_seed cl)
    (cl_checkpoint_path cl).

Definition with_mask_type (s : string) (cl : CommandLine) : CommandLine :=
  mkCommandLine (cl_local_rank cl) (cl_num_epochs cl) (cl_model_name cl)
    (cl_band cl) (cl_pretrained cl) (cl_smallset cl) (Some s)
    (cl_batch_size cl) (cl_ratio cl) (cl_lr cl) (cl_pruning_ft cl)
    (cl_pruning_test cl) (cl_global_prune cl) (cl_conv2d_prune_amount cl)
    (cl_linear_prune_amount cl) (cl_pruning_rounds cl) (cl_seed cl)
    (cl_checkpoint_path cl).

Definition with_checkpoint_path (s : string) (cl : CommandLine) : CommandLine :=
  mkCommandLine (cl_local_rank cl) (cl_num_epochs cl) (cl_model_name cl)
    (cl_band cl) (cl_pretrained cl) (cl_smallset cl) (cl_mask_type cl)
    (cl_batch_size cl) (cl_ratio cl) (cl_lr cl) (cl_pruning_ft cl)
    (cl_pruning_test cl) (cl_global_prune cl) (cl_conv2d_prune_amount cl)
    (cl_linear_prune_amount cl) (cl_pruning_rounds cl) (cl_seed cl)
    (Some s).

Definition with_num_epochs (n : Z) (cl : CommandLine) : CommandLine :=
  mkCommandLine (cl_local_rank cl) (Some n) (cl_model_name cl)
    (cl_band cl) (cl_pretrained cl) (cl_smallset cl) (cl_mask_type cl)
    (cl_batch_size cl) (cl_ratio cl) (cl_lr cl) (cl_pruning_ft cl)
    (cl_pruning_test cl) (cl_global_prune cl) (cl_conv2d_prune_amount cl)
    (cl_linear_prune_amount cl) (cl_pruning_rounds cl) (cl_seed cl)
    (cl_checkpoint_path cl).

(** ** Runs that stop with an exception, all of whose events satisfy [P] *)

Definition events {A} (P : Event → Prop) (m : M A) : Prop :=
  Forall P (trace m).

Definition aborts {A} (P : Event → Prop) (m : M A) : Prop :=
  (∃ e, outcome m = inl e) ∧ events P m.

(** ** Worlds in which no collaborator raises and the star imports bind
    what the script needs *)

Definition healthy (W : World) : Prop :=
  (∀ ev, w_fail W ev = None) ∧ (∀ n, n ∈ star_names → n ∈ w_star_names W).

(** ** Training has not begun *)

Definition is_training (ev : Event) : bool :=
  match ev with
  | EvIterativePruningFinetuning _ _ _ => true
  | _ => false
  end.

Definition before_training (ev : Event) : Prop := is_training ev = false.

(** Neither a mask generator nor a dataset nor a loader has been made. *)
Definition is_mask_or_data (ev : Event) : bool :=
  match ev with
  | EvMaskGenerator _ | EvImageAugmentor _ | EvTrainAugment _ _ _
  | EvValAugment _ _ _ | EvForenSynths _ | EvRandomSample _ | EvSubset
  | EvDistributedSampler _ | EvDataLoader _ _ => true
  | _ => false
  end.

(** ** The range test of line 82 *)

Definition in_range (r : Q) : Prop := (0 <= r)%Q ∧ (r <= 1)%Q.

Definition module_events : list Event :=
  map EvImport imports
  ++ [EvSetEnv "NCCL_BLOCKING_WAIT" "1"; EvSetEnv "NCCL_DEBUG" "WARN"].

Definition W_no_rank : World :=
  {| w_environ := ∅;
     w_star_names := w_star_names W0;
     w_fail := w_fail W0;
     w_dataset_len := w_dataset_len W0;
     w_resnet50 := w_resnet50 W0;
     w_resnet50_mod := w_resnet50_mod W0;
     w_CLIPModel := w_CLIPModel W0;
     w_Linear := w_Linear W0;
     w_ChannelLinear := w_ChannelLinear W0;
     w_torch_load := w_torch_load W0;
     w_cast := w_cast W0 |}.

(** * The backbone dispatch of lines 113-123 *)

Definition recognised (name : string) : Prop :=
  name = "RN50" ∨ name = "RN50_mod" ∨ String.prefix "clip" name = true.

Definition not_recognized (name : string) : Exn :=
  ValueError ("Model " +:+ name +:+ " not recognized!").

(** * The ratio test of lines 82-83 *)

Definition not_mask_or_data (ev : Event) : Prop := is_mask_or_data ev = false.

(** * The mask-generator dispatch of lines 86-93 *)

(** Modelled from the spec: the masking step of the per-sample transform
    built by [train_augment] and [val_augment] ([utils.py] and [mask.py] are
    not under src/).  Section 4.2 applies the photometric perturbation first
    and the mask generator second; section 4.1 makes the absent generator the
    identity. *)
Section Transform.
Context {Image : Type}.
Variable photometric : Image → Image.
Variable masking : MaskGenerator → Image → Image.

Definition apply_mask (g : option MaskGenerator) (img : Image) : Image :=
  match g with
  | Some g => masking g img
  | None => img
  end.

Definition transform (g : option MaskGenerator) (img : Image) : Image :=
  apply_mask g (photometric img).
End Transform.

(** The arguments [main] receives when the script is run without options. *)
Definition default_args : Args :=
  mkArgs 0 2 "RN50" "all" false false "spectral" 64 50 (1 # 10000)
         false false false (2 # 10) (1 # 10) 1 44
         "./checkpoints/mask_0/rn50ft.pth".

Definition default_kwargs : Kwargs :=
  mkKwargs 0 8 6 5 (1 # 2) 64 "RN50" "all" (Some "spectral") false
           (Some default_args).


(** The entries [new] of a module after a load of [sd] into its entries
    [own]: the same names in the same order, each holding the checkpoint's
    tensor of that name under the prefix [p], reduced to its first element
    where torch does so, with the own shape and element type. *)
Definition loaded_from (W : World) (p : string) (sd own new : StateDict)
  : Prop :=
  map fst new = map fst own
  ∧ ∀ key t, sd_lookup key own = Some t →
      ∃ src, sd_lookup (p +:+ key) sd = Some src
             ∧ sd_lookup key new = Some (copy_ W t (first_element t src)).


(** The checkpoint is neither read nor loaded, and training has not
    begun. *)
Definition before_restore (ev : Event) : Prop :=
  match ev with
  | EvTorchLoad _ | EvLoadStateDict _
  | EvIterativePruningFinetuning _ _ _ => False
  | _ => True
  end.

(** A residual network with a batch-norm layer, whose
    [num_batches_tracked] is a zero-dimensional integer buffer. *)
Definition bn_resnet : Model :=
  {| backbone := [("conv1.weight", zeros [2; 3; 1; 1]%nat);
                  ("bn1.num_batches_tracked", mkTensor [] Int64 [0%Q])];
     fc := mkHead 2 (linear_params zeros 2 10) |}.



Definition empty_counter_checkpoint : StateDict :=
  [("module.conv1.weight", ones [2; 3; 1; 1]%nat);
   ("module.bn1.num_batches_tracked", mkTensor [0%nat] Float64 []);
   ("module.fc.weight", ones [1; 2]%nat);
   ("module.fc.bias", ones [1]%nat)].


(** The concrete world with that network and the checkpoint [sd] in every
    file.  A float stored into an integer tensor is truncated towards zero;
    the other conversions are exact on the elements that occur. *)
Definition W_bn (sd : StateDict) : World :=
  {| w_environ := w_environ W0;
     w_star_names := w_star_names W0;
     w_fail := w_fail W0;
     w_dataset_len := w_dataset_len W0;
     w_resnet50 := fun _ => bn_resnet;
     w_resnet50_mod := w_resnet50_mod W0;
     w_CLIPModel := w_CLIPModel W0;
     w_Linear := w_Linear W0;
     w_ChannelLinear := w_ChannelLinear W0;
     w_torch_load := fun _ => {["model_state_dict" := sd]};
     w_cast := fun dst _ x =>
       match dst with
       | Int64 => inject_Z (py_int x)
       | _ => x
       end |}.

(** The residual network [main] builds in the concrete world, and the
    CLIP model. *)
Definition built_resnet : Model :=
  set_fc tiny_resnet (mkHead 2 (linear_params zeros 2 1)).

Definition clip_args (path : string) : Args :=
  mkArgs 0 2 "clip" "all" false false "spectral" 64 50 (1 # 10000)
         false false false (2 # 10) (1 # 10) 1 44 path.


(** * [--num_epochs] (lines 158, 295 and the body of [main]) *)

(** [main] called with another [num_epochs]. *)
Definition set_kw_num_epochs (n : Z) (k : Kwargs) : Kwargs :=
  mkKwargs (local_rank k) (nhead k) (num_layers k) n (ratio k) (batch_size k)
           (model_name k) (band k) (mask_type k) (pretrained k) (args k).

(** The only place the option's value survives is the namespace, which
    [main] hands on to [train_augment], [val_augment] and
    [iterative_pruning_finetuning].  [forget] blanks it there. *)
Definition forget_args (a : Args) : Args := set_num_epochs 0 a.

Definition forget (ev : Event) : Event :=
  match ev with
  | EvPrintConfig r a => EvPrintConfig r (forget_args a)
  | EvTrainAugment o g a => EvTrainAugment o g (forget_args a)
  | EvValAugment o g a => EvValAugment o g (forget_args a)
  | EvIterativePruningFinetuning m lr a =>
      EvIterativePruningFinetuning m lr (forget_args a)
  | _ => ev
  end.

(** The collaborators do not read [args.num_epochs]. *)
Definition ignores_num_epochs (W : World) : Prop :=
  ∀ ev, w_fail W ev = w_fail W (forget ev).

(** Two runs with the same events up to [forget], ending alike. *)
Definition same_run {A B} (R : A → B → Prop) (m1 : M A) (m2 : M B) : Prop :=
  map forget (trace m1) = map forget (trace m2)
  ∧ match outcome m1, outcome m2 with
    | inl e1, inl e2 => e1 = e2
    | inr a, inr b => R a b
    | _, _ => False
    end.

(** Two namespaces that differ in [num_epochs] at most. *)
Definition same_args (a b : Args) : Prop := forget_args a = forget_args b.

(** * The two augmentation configurations (lines 62-80) *)

Definition midpoint (range : list Q) : option Q :=
  match range with
  | [lo; hi] => Some ((lo + hi) / 2)%Q
  | _ => None
  end.

(** Modelled from the spec: the photometric part of [ImageAugmentor]
    ([augment.py] is not under src/).  Section 4.2: blur with a probability
    and a sigma range, JPEG re-encoding with a probability and a quality
    range, using a configured method.  A perturbation is applied to a sample
    when a uniform draw from [0,1) falls below its probability; each of its
    parameters is taken from the configured range by a further draw, and a
    range of one value leaves nothing to draw. *)
Inductive Perturbation : Type :=
| Blur (sigma : Q)
| Jpeg (method : string) (quality : Z).

(** The draws made for one sample. *)
Record Draws : Type := mkDraws {
  u_blur : Q;
  u_sigma : Q;
  u_jpg : Q;
  u_method : Q;
  u_quality : Q
}.

Definition unit_interval (u : Q) : Prop := (0 <= u)%Q ∧ (u < 1)%Q.

Definition valid_draws (d : Draws) : Prop :=
  unit_interval (u_blur d) ∧ unit_interval (u_sigma d)
  ∧ unit_interval (u_jpg d) ∧ unit_interval (u_method d)
  ∧ unit_interval (u_quality d).

Definition pick_sigma (range : list Q) (u : Q) : option Q :=
  match range with
  | [x] => Some x
  | [lo; hi] => Some (lo + u * (hi - lo))%Q
  | _ => None
  end.

Definition pick_quality (range : list Z) (u : Q) : option Z :=
  match range with
  | [x] => Some x
  | [lo; hi] => Some (lo + Qfloor (u * inject_Z (hi - lo + 1)))%Z
  | _ => None
  end.

Definition pick_method (methods : list string) (u : Q) : option string :=
  methods !! Z.to_nat (Qfloor (u * inject_Z (Z.of_nat (length methods)))).

Definition perturbations (opt : AugOpt) (d : Draws) : list Perturbation :=
  (if Qlt_bool (u_blur d) (blur_prob opt) then
     match pick_sigma (blur_sig opt) (u_sigma d) with
     | Some s => [Blur s]
     | None => []
     end
   else [])
  ++
  (if Qlt_bool (u_jpg d) (jpg_prob opt) then
     match pick_method (jpg_method opt) (u_method d),
           pick_quality (jpg_qual opt) (u_quality d) with
     | Some m, Some q => [Jpeg m q]
     | _, _ => []
     end
   else []).

(** Not randomized per sample: the draws make no difference. *)
Definition deterministic (opt : AugOpt) : Prop :=
  ∀ d1 d2, valid_draws d1 → valid_draws d2 →
    perturbations opt d1 = perturbations opt d2.

(** Two samples: one whose draws fall below both probabilities, one whose
    draws fall above. *)
Definition draws_low : Draws := mkDraws 0 0 0 0 0.
Definition draws_high : Draws := mkDraws (1 # 2) 0 (1 # 2) 0 0.

(** * The pruning rounds behind [iterative_pruning_finetuning] *)

Module Pruning.

(** Modelled from the spec: the Prunable Parameter Group of section 3, the
    Pruning Engine of section 4.4 and the Orchestrator of section 4.7
    ([iterative_pruning_finetuning] lives in [utils.py], which is not under
    src/; [prune.py] only calls it).  A layer is its weights and a keep-mask
    of the same shape, flattened.  A round removes, per layer or per pooled
    kind, a fraction of the weights still kept, lowest magnitude first, ties
    in the order of layer index and flat index; the fine-tune loop rewrites
    weights and leaves the masks alone. *)
Inductive LayerKind : Type := Conv2d | Linear.

#[global] Instance LayerKind_eq_dec : EqDecision LayerKind.
Proof. solve_decision. Defined.

Record Layer : Type := mkLayer {
  kind : LayerKind;
  weight : list Q;
  keep : list bool
}.

Abbreviation Net := (list Layer).

(** A weight position: layer index and flat index. *)
Definition Position : Type := (nat * nat)%type.

Definition keep_at (net : Net) (p : Position) : option bool :=
  match net !! fst p with
  | Some l => keep l !! snd p
  | None => None
  end.

Definition zeroed (net : Net) (p : Position) : Prop :=
  keep_at net p = Some false.

(** The weight the network computes with. *)
Definition effective (net : Net) (p : Position) : option Q :=
  match net !! fst p with
  | Some l =>
      match (keep l !! snd p : option bool), (weight l !! snd p : option Q) with
      | Some k, Some w => Some (if k then w else 0%Q)
      | _, _ => None
      end
  | None => None
  end.

Definition magnitude (l : Layer) (i : nat) : Q :=
  Qabs (default 0%Q (weight l !! i)).

Definition magnitude_at (net : Net) (p : Position) : Q :=
  match net !! fst p with
  | Some l => magnitude l (snd p)
  | None => 0%Q
  end.

(** The flat indices still kept, in order. *)
Definition unpruned (l : Layer) : list nat :=
  filter (λ i, keep l !! i = Some true) (seq 0 (length (keep l))).

(** Stable ranking by magnitude, lowest first. *)
Fixpoint insert_by {A} (m : A → Q) (x : A) (l : list A) : list A :=
  match l with
  | [] => [x]
  | y :: l' =>
      if Qle_bool (m x) (m y) then x :: y :: l' else y :: insert_by m x l'
  end.

Definition rank_by {A} (m : A → Q) (l : list A) : list A :=
  foldr (insert_by m) [] l.

Definition zero_out (chosen : list nat) (mask : list bool) : list bool :=
  foldr (λ i m, <[i := false]> m) mask chosen.

Record Config : Type := mkConfig {
  pruning_rounds : nat;
  conv2d_prune_amount : Q;
  linear_prune_amount : Q;
  global_prune : bool;
  pruning_ft : bool;
  pruning_test : bool
}.

Section Rounds.

(** How many of [n] kept weights an amount removes; the spec does not fix
    the rounding. *)
Variable count : Q → nat → nat.

(** The weights the fine-tune loop of a round leaves, layer by layer. *)
Variable fine_tune : nat → Net → list (list Q).

Definition prune_layer (amount : Q) (l : Layer) : Layer :=
  let candidates := unpruned l in
  let chosen :=
    take (count amount (length candidates))
         (rank_by (magnitude l) candidates) in
  mkLayer (kind l) (weight l) (zero_out chosen (keep l)).

Definition amount_of (conv_amount linear_amount : Q) (k : LayerKind) : Q :=
  match k with
  | Conv2d => conv_amount
  | Linear => linear_amount
  end.

Definition prune_local (conv_amount linear_amount : Q) (net : Net) : Net :=
  (λ l, prune_layer (amount_of conv_amount linear_amount (kind l)) l) <$> net.

(** All kept positions of the layers of one kind. *)
Definition pooled (k : LayerKind) (net : Net) : list Position :=
  concat (imap (λ li l,
                  if decide (kind l = k) then (λ i, (li, i)) <$> unpruned l
                  else []) net).

Definition prune_pool (k : LayerKind) (amount : Q) (net : Net) : Net :=
  let candidates := pooled k net in
  let chosen :=
    take (count amount (length candidates))
         (rank_by (magnitude_at net) candidates) in
  imap (λ li l,
          mkLayer (kind l) (weight l)
            (zero_out (snd <$> filter (λ p : Position, fst p = li) chosen) (keep l)))
       net.

Definition prune_global (conv_amount linear_amount : Q) (net : Net) : Net :=
  prune_pool Linear linear_amount (prune_pool Conv2d conv_amount net).

Definition prune_round (net : Net) (conv_amount linear_amount : Q)
    (global_scope : bool) : Net :=
  if global_scope then prune_global conv_amount linear_amount net
  else prune_local conv_amount linear_amount net.

Definition set_weights (ws : list (list Q)) (net : Net) : Net :=
  imap (λ li l, mkLayer (kind l) (default (weight l) (ws !! li)) (keep l)) net.

(** One round: prune, then fine-tune if asked; the test-only mode neither
    prunes nor trains. *)
Definition round (c : Config) (r : nat) (net : Net) : Net :=
  if pruning_test c && negb (pruning_ft c) then net
  else
    let pruned :=
      prune_round net (conv2d_prune_amount c) (linear_prune_amount c)
                  (global_prune c) in
    if pruning_ft c then set_weights (fine_tune r pruned) pruned else pruned.

(** The model after [r] rounds. *)
Fixpoint after_rounds (c : Config) (r : nat) (net : Net) : Net :=
  match r with
  | O => net
  | S r' => round c r' (after_rounds c r' net)
  end.

Definition orchestrate (c : Config) (net : Net) : Net :=
  after_rounds c (pruning_rounds c) net.

End Rounds.

(** Rounding down, as one choice of [count]. *)
Definition count_floor (amount : Q) (n : nat) : nat :=
  Z.to_nat (Qfloor (amount * inject_Z (Z.of_nat n))).

End Pruning.

(** A two-layer network, a fine-tune loop that moves every weight, and
    three rounds at one half and one quarter. *)
Definition example_net : Pruning.Net :=
  [Pruning.mkLayer Pruning.Conv2d [3; -1; 2; 1 # 2; -4; 1]%Q (repeat true 6);
   Pruning.mkLayer Pruning.Linear [1; -1; 5; 0]%Q (repeat true 4)].

Definition example_fine_tune (r : nat) (net : Pruning.Net) : list (list Q) :=
  (λ l, (λ w, w + 10)%Q <$> Pruning.weight l) <$> net.

Definition example_config (global_scope : bool) : Pruning.Config :=
  Pruning.mkConfig 3 (1 # 2) (1 # 4) global_scope true false.

(** * Further vocabulary for runs *)

(** The device index a call is given: [torch.cuda.set_device(device)] and
    [model.to(device)] with [device = torch.device(f'cuda:{local_rank}')]. *)
Definition device_of (ev : Event) : option Z :=
  match ev with
  | EvSetDevice r | EvToDevice r => Some r
  | _ => None
  end.

(** An event that names no device other than [r]. *)
Definition device_ok (r : Z) (ev : Event) : Prop :=
  match device_of ev with
  | Some r' => r' = r
  | None => True
  end.

Definition with_local_rank (r : Z) (cl : CommandLine) : CommandLine :=
  mkCommandLine (Some r) (cl_num_epochs cl) (cl_model_name cl)
    (cl_band cl) (cl_pretrained cl) (cl_smallset cl) (cl_mask_type cl)
    (cl_batch_size cl) (cl_ratio cl) (cl_lr cl) (cl_pruning_ft cl)
    (cl_pruning_test cl) (cl_global_prune cl) (cl_conv2d_prune_amount cl)
    (cl_linear_prune_amount cl) (cl_pruning_rounds cl) (cl_seed cl)
    (cl_checkpoint_path cl).

(** [main] called with another [band], [pretrained] or [model_name]. *)
Definition set_kw_band (b : string) (k : Kwargs) : Kwargs :=
  mkKwargs (local_rank k) (nhead k) (num_layers k) (num_epochs k) (ratio k)
           (batch_size k) (model_name k) b (mask_type k) (pretrained k)
           (args k).

Definition set_kw_pretrained (p : bool) (k : Kwargs) : Kwargs :=
  mkKwargs (local_rank k) (nhead k) (num_layers k) (num_epochs k) (ratio k)
           (batch_size k) (model_name k) (band k) (mask_type k) p (args k).

Definition set_kw_model_name (s : string) (k : Kwargs) : Kwargs :=
  mkKwargs (local_rank k) (nhead k) (num_layers k) (num_epochs k) (ratio k)
           (batch_size k) s (band k) (mask_type k) (pretrained k) (args k).

(** A checkpoint is read or written into a module. *)
Definition is_load (ev : Event) : bool :=
  match ev with
  | EvTorchLoad _ | EvLoadStateDict _ => true
  | _ => false
  end.

(** The training set is cut down to a sample. *)
Definition is_subsample (ev : Event) : bool :=
  match ev with
  | EvRandomSample _ | EvSubset => true
  | _ => false
  end.

(** A trace in which the pruning loop is entered at most once, and then as
    the last thing that happens. *)
Definition training_last (tr : list Event) : Prop :=
  ∃ before after,
    tr = before ++ after
    ∧ Forall (λ ev, is_training ev = false) before
    ∧ (after = [] ∨ ∃ m lr a, after = [EvIterativePruningFinetuning m lr a]).

(** The three mask types [main] constructs a generator for. *)
Definition masking_types : list (option string) :=
  [Some "spectral"; Some "pixel"; Some "patch"].

(** The model names for which [main] builds a model. *)
Definition supported_names : list string := ["RN50"; "RN50_mod"; "clip"].

(** The namespace and the call of [main] for [--pretrained] alone. *)
Definition pretrained_args : Args :=
  mkArgs 0 2 "RN50" "all" true false "spectral" 64 50 (1 # 10000)
         false false false (2 # 10) (1 # 10) 1 44
         "./checkpoints/mask_0/rn50ft.pth".

Definition pretrained_kwargs : Kwargs :=
  mkKwargs 0 8 6 5 (1 # 2) 64 "RN50" "all" (Some "spectral") true
           (Some pretrained_args).

(** A world whose checkpoint files hold nothing. *)
Definition W_empty_checkpoint : World :=
  {| w_environ := w_environ W0;
     w_star_names := w_star_names W0;
     w_fail := w_fail W0;
     w_dataset_len := w_dataset_len W0;
     w_resnet50 := w_resnet50 W0;
     w_resnet50_mod := w_resnet50_mod W0;
     w_CLIPModel := w_CLIPModel W0;
     w_Linear := w_Linear W0;
     w_ChannelLinear := w_ChannelLinear W0;
     w_torch_load := λ _, ∅;
     w_cast := w_cast W0 |}.

(** * Reasoning about computations *)

Lemma bind_raise {A B} (m : M A) (k : A → M B) e :
  outcome m = inl e → m ≫= k = (trace m, inl e).
Proof. destruct m as [t [e'|a]]; simpl; intros Hm; [|done]. by inversion Hm. Qed.

Lemma bind_value {A B} (m : M A) (k : A → M B) a :
  outcome m = inr a → m ≫= k = (trace m ++ trace (k a), outcome (k a)).
Proof. destruct m as [t [e'|a']]; simpl; intros Hm; [done|]. by inversion Hm. Qed.

Lemma ret_bind {A B} (a : A) (k : A → M B) : ret a ≫= k = k a.
Proof. unfold mbind, M_bind, bind, ret. simpl. by destruct (k a). Qed.

Lemma emit_bind {A} (ev : Event) (k : unit → M A) :
  emit ev ≫= k = (ev :: trace (k tt), outcome (k tt)).
Proof. reflexivity. Qed.

Lemma raise_bind {A B} (e : Exn) (k : A → M B) : raise e ≫= k = raise e.
Proof. reflexivity. Qed.

Lemma lift_value_bind {A B} (a : A) (k : A → M B) : lift (inr a) ≫= k = k a.
Proof. apply ret_bind. Qed.

Lemma lift_raise_bind {A B} (e : Exn) (k : A → M B) :
  lift (inl e) ≫= k = raise e.
Proof. reflexivity. Qed.

Lemma events_bind {A B} P (m : M A) (k : A → M B) :
  events P m → (∀ a, events P (k a)) → events P (m ≫= k).
Proof.
  unfold events. destruct m as [t [e|a]]; simpl; intros Ht Hk; [done|].
  apply Forall_app; split; [done | apply Hk].
Qed.

Lemma events_call W P ev : P ev → events P (call W ev).
Proof.
  intros Hev. unfold events, call.
  destruct (w_fail W ev); simpl; by constructor.
Qed.

Lemma events_emit P ev : P ev → events P (emit ev).
Proof. intros Hev. unfold events, emit; simpl. by constructor. Qed.

Lemma events_global W P name : events P (global W name).
Proof. unfold events, global. case_bool_decide; constructor. Qed.

Lemma events_ret {A} P (a : A) : events P (ret a).
Proof. constructor. Qed.

Lemma events_raise {A} P e : events P (@raise A e).
Proof. constructor. Qed.

Lemma events_lift {A} P (r : Exn + A) : events P (lift r).
Proof. constructor. Qed.

Lemma aborts_bind_l {A B} P (m : M A) (k : A → M B) :
  aborts P m → aborts P (m ≫= k).
Proof.
  intros [[e He] Hm]. rewrite (bind_raise _ _ _ He). split; [by exists e | done].
Qed.

Lemma aborts_bind_r {A B} P (m : M A) (k : A → M B) :
  events P m → (∀ a, aborts P (k a)) → aborts P (m ≫= k).
Proof.
  intros Hm Hk. destruct m as [t [e|a]].
  - split; [by exists e | done].
  - destruct (Hk a) as [[e He] Hka]. split.
    + exists e. simpl. done.
    + apply events_bind; [done | intros a'; apply Hk].
Qed.

Lemma aborts_raise {A} P e : aborts P (@raise A e).
Proof. split; [by exists e | constructor]. Qed.

(** Decompose a goal [events P m] along the structure of [m]. *)
Ltac events_tac :=
  repeat first
    [ apply events_ret
    | apply events_raise
    | apply events_lift
    | apply events_global
    | apply events_call; done
    | apply events_emit; done
    | apply events_bind; [| intros ?]
    | match goal with
      | |- events _ (if ?b then _ else _) => destruct b
      | |- events _ (match ?x with _ => _ end) => destruct x
      end ].

Lemma healthy_W0 : healthy W0.
Proof. split; [done | by intros n Hn]. Qed.

Section Healthy.
Context (W : World) (HW : healthy W).

Lemma call_emit ev : call W ev = emit ev.
Proof. unfold call. by rewrite (proj1 HW). Qed.

Lemma global_bound name : name ∈ star_names → global W name = ret tt.
Proof.
  intros Hn. unfold global. rewrite bool_decide_eq_true_2; [done|].
  by apply HW.
Qed.
End Healthy.

(** Evaluate a run in a healthy world, one call at a time. *)
Ltac run HW :=
  repeat first
    [ rewrite (call_emit _ HW)
    | rewrite (global_bound _ HW) by (by apply (bool_decide_unpack _))
    | rewrite ret_bind
    | rewrite emit_bind
    | rewrite raise_bind
    | progress (unfold trace, outcome; simpl) ].

Lemma events_run_imports W P ms :
  (∀ m, P (EvImport m)) → events P (run_imports W ms).
Proof.
  intros HP. induction ms as [|m ms IH]; simpl; [constructor|].
  apply events_bind; [by apply events_call | by intros _].
Qed.

Lemma events_module_level W : events before_training (module_level W).
Proof.
  unfold module_level.
  apply events_bind; [by apply events_run_imports | intros _].
  events_tac.
Qed.

Lemma events_setup W k : events before_training (setup W k).
Proof. unfold setup. events_tac. Qed.

Lemma events_make_mask_generator W k :
  events before_training (make_mask_generator W k).
Proof. unfold make_mask_generator. events_tac. Qed.

Lemma events_data_loaders W k a g :
  events before_training (data_loaders W k a g).
Proof. unfold data_loaders. events_tac. Qed.

Lemma events_build_model W k : events before_training (build_model W k).
Proof. unfold build_model. events_tac. Qed.

Lemma Qlt_bool_false x y : (y <= x)%Q → Qlt_bool x y = false.
Proof.
  intros H. unfold Qlt_bool. apply negb_false_iff. by apply Qle_bool_iff.
Qed.

Lemma Qlt_bool_true x y : (x < y)%Q → Qlt_bool x y = true.
Proof.
  intros H. unfold Qlt_bool. apply negb_true_iff.
  destruct (Qle_bool y x) eqn:E; [|done].
  apply Qle_bool_iff in E. by apply Qle_not_lt in E.
Qed.

Lemma range_test_in r :
  in_range r → Qlt_bool 1 r || Qlt_bool r 0 = false.
Proof.
  intros [H0 H1]. by rewrite (Qlt_bool_false 1 r), (Qlt_bool_false r 0).
Qed.

Lemma range_test_out r :
  ¬ in_range r → Qlt_bool 1 r || Qlt_bool r 0 = true.
Proof.
  intros Hr. apply orb_true_iff.
  destruct (Qlt_le_dec 1 r) as [H1|H1]; [left; by apply Qlt_bool_true|].
  destruct (Qlt_le_dec r 0) as [H0|H0]; [right; by apply Qlt_bool_true|].
  destruct Hr. by split.
Qed.

(** * Module level: the environment lookup of line 32 *)

Lemma run_imports_ok W ms :
  (∀ m, w_fail W (EvImport m) = None) →
  run_imports W ms = (map EvImport ms, inr tt).
Proof.
  intros HW. induction ms as [|m ms IH]; [done|].
  simpl. unfold call. rewrite HW, IH. reflexivity.
Qed.

Lemma environ_at_32_local_rank W :
  environ_at_32 W !! "LOCAL_RANK" = w_environ W !! "LOCAL_RANK".
Proof. unfold environ_at_32. by rewrite !lookup_insert_ne. Qed.

Lemma module_level_ok W :
  (∀ m, w_fail W (EvImport m) = None) →
  is_Some (w_environ W !! "LOCAL_RANK") →
  module_level W = (module_events, inr tt).
Proof.
  intros HW [v Hv]. unfold module_level.
  rewrite (run_imports_ok _ _ HW), environ_at_32_local_rank, Hv. reflexivity.
Qed.

(** C9: with LOCAL_RANK unset (and the imports succeeding) the script stops
    with KeyError on line 32, after the imports and the two environment
    assignments only: the arguments are not parsed, nothing of the command
    line is looked at, and [main] is not entered. *)
Theorem local_rank_unset_KeyError (W : World) (cl : CommandLine) :
  w_environ W !! "LOCAL_RANK" = None →
  (∀ m, w_fail W (EvImport m) = None) →
  program W cl = (module_events, inl (KeyError "LOCAL_RANK"))
  ∧ EvParseArgs ∉ trace (program W cl).
Proof.
  intros Henv HW.
  assert (Hm : module_level W = (module_events, inl (KeyError "LOCAL_RANK"))).
  { unfold module_level.
    rewrite (run_imports_ok _ _ HW), environ_at_32_local_rank, Henv.
    reflexivity. }
  assert (Hp : program W cl = (module_events, inl (KeyError "LOCAL_RANK"))).
  { unfold program. rewrite Hm. reflexivity. }
  split; [done|]. rewrite Hp. unfold trace; simpl.
  vm_compute. intros H. 
  repeat (apply elem_of_cons in H as [H|H]; [discriminate|]).
  by apply elem_of_nil in H.
Qed.

Lemma local_rank_unset_KeyError_witness :
  program W_no_rank no_options = (module_events, inl (KeyError "LOCAL_RANK"))
  ∧ EvParseArgs ∉ trace (program W_no_rank no_options).
Proof. apply local_rank_unset_KeyError; [reflexivity | reflexivity]. Defined.

(** * Argument parsing: values outside the declared choices *)

Lemma choice_invalid choices dflt s :
  s ∉ choices → choice choices dflt (Some s) = inl (SystemExit 2).
Proof. intros Hs. unfold choice. by rewrite bool_decide_eq_false_2. Qed.

Lemma choice_error choices dflt v e :
  choice choices dflt v = inl e → e = SystemExit 2.
Proof.
  unfold choice. destruct v as [s|]; [|done].
  case_bool_decide; congruence.
Qed.

Lemma choice_value choices dflt v s :
  choice choices dflt v = inr s → s = dflt ∨ s ∈ choices.
Proof.
  unfold choice. destruct v as [s'|]; [|intros [= <-]; by left].
  case_bool_decide; [intros [= <-]; by right | done].
Qed.

Lemma parse_args_error cl e : parse_args cl = inl e → e = SystemExit 2.
Proof.
  unfold parse_args.
  destruct (choice model_name_choices _ _) eqn:E1;
    [intros [= <-]; by eapply choice_error|].
  destruct (choice band_choices _ _) eqn:E2;
    [intros [= <-]; by eapply choice_error|].
  destruct (choice mask_type_choices _ _) eqn:E3;
    [intros [= <-]; by eapply choice_error | done].
Qed.

Lemma parse_args_mask_type_invalid cl s :
  cl_mask_type cl = Some s → s ∉ mask_type_choices →
  parse_args cl = inl (SystemExit 2).
Proof.
  intros Hcl Hs. destruct (parse_args cl) as [e|a] eqn:E.
  - by rewrite (parse_args_error _ _ E).
  - unfold parse_args in E. rewrite Hcl, (choice_invalid _ _ _ Hs) in E.
    by repeat case_match.
Qed.

Lemma parse_args_model_name_invalid cl s :
  cl_model_name cl = Some s → s ∉ model_name_choices →
  parse_args cl = inl (SystemExit 2).
Proof.
  intros Hcl Hs. unfold parse_args.
  by rewrite Hcl, (choice_invalid _ _ _ Hs).
Qed.

Lemma parse_args_model_name cl a :
  parse_args cl = inr a →
  arg_model_name a ∈ model_name_choices
  ∧ (∀ s, cl_model_name cl = Some s → arg_model_name a = s).
Proof.
  unfold parse_args.
  destruct (choice model_name_choices _ _) as [|mn] eqn:E1; [done|].
  destruct (choice band_choices _ _) as [|b] eqn:E2; [done|].
  destruct (choice mask_type_choices _ _) as [|mt] eqn:E3; [done|].
  intros [= <-]; simpl. split.
  - destruct (choice_value _ _ _ _ E1) as [->|H]; [|done].
    by apply (bool_decide_unpack _).
  - intros s Hs. rewrite Hs in E1. unfold choice in E1.
    case_bool_decide; congruence.
Qed.

(** A parse error ends the run before [main] is entered. *)
Lemma entry_parse_error W cl e :
  parse_args cl = inl e →
  aborts before_training (entry W cl)
  ∧ (w_fail W EvParseArgs = None →
     entry W cl = ([EvParseArgs], inl e)).
Proof.
  intros Hp. unfold entry. rewrite Hp. split.
  - apply aborts_bind_r; [by apply events_call | intros _].
    apply aborts_bind_l. split; [by exists e | constructor].
  - intros HW. unfold call. rewrite HW. reflexivity.
Qed.

Lemma program_entry_aborts W cl :
  aborts before_training (entry W cl) →
  aborts before_training (program W cl).
Proof.
  intros H. unfold program.
  apply aborts_bind_r; [apply events_module_level | by intros _].
Qed.

Lemma program_module_ok W cl :
  module_level W = (module_events, inr tt) →
  program W cl = (module_events ++ trace (entry W cl), outcome (entry W cl)).
Proof. intros Hm. unfold program. by rewrite Hm. Qed.

(** C4: a [--mask_type] outside pixel, spectral, patch and nomask never
    reaches training: the run ends with an exception and the pruning and
    fine-tuning loop is not called, in every world; when the module level
    and the parser itself run through, it is the parser that ends it, with
    exit status 2, before the configuration is printed and before [main] is
    entered. *)
Theorem unknown_mask_type_rejected (W : World) (cl : CommandLine) (s : string) :
  cl_mask_type cl = Some s →
  s ∉ mask_type_choices →
  aborts before_training (program W cl)
  ∧ (module_level W = (module_events, inr tt) →
     w_fail W EvParseArgs = None →
     program W cl = (module_events ++ [EvParseArgs], inl (SystemExit 2))).
Proof.
  intros Hcl Hs.
  pose proof (parse_args_mask_type_invalid _ _ Hcl Hs) as Hp.
  destruct (entry_parse_error W cl _ Hp) as [Ha He]. split.
  - by apply program_entry_aborts.
  - intros Hm HW. rewrite (program_module_ok _ _ Hm), (He HW). reflexivity.
Qed.

Lemma unknown_mask_type_rejected_witness :
  aborts before_training (program W0 (with_mask_type "block" no_options))
  ∧ (module_level W0 = (module_events, inr tt) →
     w_fail W0 EvParseArgs = None →
     program W0 (with_mask_type "block" no_options)
     = (module_events ++ [EvParseArgs], inl (SystemExit 2))).
Proof.
  apply (unknown_mask_type_rejected W0 (with_mask_type "block" no_options)
           "block"); [reflexivity | by apply (bool_decide_unpack _)].
Defined.

(** * Model names the dispatch does not know *)

Lemma unrecognised_tests name :
  ¬ recognised name →
  String.eqb name "RN50" = false
  ∧ String.eqb name "RN50_mod" = false
  ∧ String.prefix "clip" name = false.
Proof.
  unfold recognised. intros H. repeat split.
  - apply String.eqb_neq. tauto.
  - apply String.eqb_neq. tauto.
  - destruct (String.prefix "clip" name); [tauto | done].
Qed.

Lemma build_model_unrecognised W k :
  ¬ recognised (model_name k) →
  build_model W k = raise (not_recognized (model_name k)).
Proof.
  intros H. destruct (unrecognised_tests _ H) as (H1 & H2 & H3).
  unfold build_model. rewrite H1, H2, H3. reflexivity.
Qed.

Lemma main_unrecognised_aborts W k :
  ¬ recognised (model_name k) → aborts before_training (main W k).
Proof.
  intros H. unfold main.
  apply aborts_bind_r; [apply events_setup | intros a].
  apply aborts_bind_r; [apply events_make_mask_generator | intros g].
  apply aborts_bind_r; [apply events_data_loaders | intros _].
  apply aborts_bind_l. rewrite (build_model_unrecognised _ _ H).
  apply aborts_raise.
Qed.

(** In a healthy world every phase before the dispatch runs through. *)
Lemma setup_healthy W k a :
  healthy W → args k = Some a →
  ∃ tr, setup W k = (tr, inr a).
Proof.
  intros HW Ha. unfold setup. rewrite Ha. run HW. eauto.
Qed.

Lemma make_mask_generator_healthy W k :
  healthy W → in_range (ratio k) →
  ∃ tr g, make_mask_generator W k = (tr, inr g).
Proof.
  intros HW Hr. unfold make_mask_generator. rewrite (range_test_in _ Hr).
  repeat case_bool_decide; run HW; eauto.
Qed.

Lemma data_loaders_healthy W k a g :
  healthy W → ∃ tr, data_loaders W k a g = (tr, inr tt).
Proof.
  intros HW. unfold data_loaders. destruct (arg_smallset a); run HW; eauto.
Qed.

Lemma main_unrecognised_ValueError W k :
  ¬ recognised (model_name k) →
  healthy W → in_range (ratio k) → is_Some (args k) →
  outcome (main W k) = inl (not_recognized (model_name k)).
Proof.
  intros H HW Hr [a Ha]. unfold main.
  destruct (setup_healthy _ _ _ HW Ha) as [t1 ->].
  destruct (make_mask_generator_healthy _ _ HW Hr) as (t2 & g & ->).
  destruct (data_loaders_healthy W k a g HW) as [t3 E3].
  rewrite (build_model_unrecognised _ _ H).
  unfold outcome. simpl. rewrite E3. reflexivity.
Qed.

Lemma kwargs_model_name L k :
  kwargs L = inr k → model_name k = arg_model_name (l_args L).
Proof.
  unfold kwargs. destruct (true_div_100 _); [done|]. by intros [= <-].
Qed.

Lemma locals_model_name a : arg_model_name (l_args (locals a)) = arg_model_name a.
Proof. unfold locals. by destruct (negb _). Qed.

Lemma entry_unrecognised_aborts W cl s :
  ¬ recognised s → cl_model_name cl = Some s →
  aborts before_training (entry W cl).
Proof.
  intros H Hcl. destruct (parse_args cl) as [e|a] eqn:Hp.
  - by apply (entry_parse_error W cl e).
  - destruct (parse_args_model_name _ _ Hp) as [_ Hs].
    specialize (Hs _ Hcl). unfold entry. rewrite Hp.
    apply aborts_bind_r; [by apply events_call | intros _].
    rewrite lift_value_bind.
    apply aborts_bind_r; [by apply events_emit | intros _].
    destruct (kwargs (locals a)) as [e|k] eqn:Hk.
    + rewrite lift_raise_bind. apply aborts_raise.
    + rewrite lift_value_bind. apply main_unrecognised_aborts.
      by rewrite (kwargs_model_name _ _ Hk), locals_model_name, Hs.
Qed.

(** C3: a model name that is none of RN50, RN50_mod or clip-prefixed never
    reaches training.  Whatever the collaborators do, [main] ends with an
    exception and the pruning and fine-tuning loop is not called; when the
    steps before the dispatch run through (healthy world, ratio in range, a
    namespace given), the exception is the ValueError of line 123.  The same
    holds for the whole script, where the parser turns away every name
    outside its choices even earlier. *)
Theorem unknown_model_name_ValueError (W : World) (s : string) :
  ¬ recognised s →
  (∀ k, model_name k = s →
     aborts before_training (main W k)
     ∧ (healthy W → in_range (ratio k) → is_Some (args k) →
        outcome (main W k) = inl (ValueError ("Model " +:+ s +:+ " not recognized!"))))
  ∧ (∀ cl, cl_model_name cl = Some s →
       aborts before_training (program W cl)).
Proof.
  intros H. split.
  - intros k <-. split; [by apply main_unrecognised_aborts|].
    intros HW Hr Ha. by apply main_unrecognised_ValueError.
  - intros cl Hcl. apply program_entry_aborts.
    by apply (entry_unrecognised_aborts W cl s).
Qed.

Lemma unknown_model_name_ValueError_witness :
  (∀ k, model_name k = "RN18" →
     aborts before_training (main W0 k)
     ∧ (healthy W0 → in_range (ratio k) → is_Some (args k) →
        outcome (main W0 k)
        = inl (ValueError ("Model " +:+ "RN18" +:+ " not recognized!"))))
  ∧ (∀ cl, cl_model_name cl = Some "RN18" →
       aborts before_training (program W0 cl)).
Proof.
  apply (unknown_model_name_ValueError W0 "RN18").
  intros [H|[H|H]]; discriminate.
Defined.

(** The two names the parser lets through that [main] does not know. *)
Example RN18_run :
  outcome (program W0 (with_model_name "RN18" no_options))
  = inl (ValueError "Model RN18 not recognized!").
Proof. vm_compute. reflexivity. Qed.

Example RN34_run :
  outcome (program W0 (with_model_name "RN34" no_options))
  = inl (ValueError "Model RN34 not recognized!").
Proof. vm_compute. reflexivity. Qed.

(** A name outside the parser's choices does not get as far as [main]. *)
Example resnet101_run :
  program W0 (with_model_name "resnet101" no_options)
  = (module_events ++ [EvParseArgs], inl (SystemExit 2)).
Proof. vm_compute. reflexivity. Qed.

(** * A ratio outside [0,1] *)

Lemma events_setup_no_data W k : events not_mask_or_data (setup W k).
Proof. unfold setup. events_tac. Qed.

(** Whatever the world, a ratio outside [0,1] stops [main] with an
    exception before a mask generator, a transform, a dataset or a loader is
    made. *)
Lemma out_of_range_aborts W k :
  ¬ in_range (ratio k) → aborts not_mask_or_data (main W k).
Proof.
  intros Hr. unfold main.
  apply aborts_bind_r; [apply events_setup_no_data | intros a].
  apply aborts_bind_l. unfold make_mask_generator.
  rewrite (range_test_out _ Hr).
  apply aborts_bind_r; [apply events_global | intros _].
  apply aborts_raise.
Qed.

(** The exception is a NameError unless a star import binds
    [valueError]. *)
Lemma out_of_range_NameError W k :
  ¬ in_range (ratio k) → healthy W → is_Some (args k) →
  "valueError" ∉ w_star_names W →
  outcome (main W k) = inl (NameError "valueError").
Proof.
  intros Hr HW [a Ha] Hn. unfold main.
  destruct (setup_healthy _ _ _ HW Ha) as [t1 ->].
  unfold make_mask_generator. rewrite (range_test_out _ Hr).
  unfold global. rewrite (bool_decide_eq_false_2 _ Hn). reflexivity.
Qed.

(** C1, at [--ratio 150]: the ratio handed to [main] is 3/2, outside [0,1];
    the run stops before any mask generator, transform, dataset or loader is
    made, but the exception is the NameError of the misspelt name
    [valueError], not a ValueError. *)
Theorem ratio_150_raises_NameError :
  kwargs (locals (mkArgs 0 2 "RN50" "all" false false "spectral" 64 150
                         (1 # 10000) false false false (2 # 10) (1 # 10) 1 44
                         "./checkpoints/mask_0/rn50ft.pth"))
  = inr (mkKwargs 0 8 6 5 (3 # 2) 64 "RN50" "all" (Some "spectral") false
           (Some (mkArgs 0 2 "RN50" "all" false false "spectral" 64 150
                         (1 # 10000) false false false (2 # 10) (1 # 10) 1 44
                         "./checkpoints/mask_0/rn50ft.pth")))
  ∧ outcome (program W0 (with_ratio 150 no_options))
    = inl (NameError "valueError")
  ∧ (∀ msg, outcome (program W0 (with_ratio 150 no_options))
            ≠ inl (ValueError msg))
  ∧ events not_mask_or_data (program W0 (with_ratio 150 no_options)).
Proof.
  split; [by vm_compute|].
  assert (H : outcome (program W0 (with_ratio 150 no_options))
              = inl (NameError "valueError")) by (by vm_compute).
  split; [done|]. split; [intros msg; by rewrite H|].
  unfold events, not_mask_or_data. apply Forall_forall.
  intros ev Hev. vm_compute in Hev.
  repeat (apply elem_of_cons in Hev as [->|Hev]; [reflexivity|]).
  by apply elem_of_nil in Hev.
Qed.

(** The same below the range. *)
Example ratio_minus_1_run :
  outcome (program W0 (with_ratio (-1) no_options))
  = inl (NameError "valueError").
Proof. by vm_compute. Qed.

(** * The generator chosen for each mask type *)

Lemma make_mask_generator_spectral W k :
  healthy W → in_range (ratio k) → mask_type k = Some "spectral" →
  make_mask_generator W k
  = ([EvMaskGenerator (FrequencyMaskGenerator (ratio k) (band k))],
     inr (Some (FrequencyMaskGenerator (ratio k) (band k)))).
Proof.
  intros HW Hr Hm. unfold make_mask_generator.
  rewrite (range_test_in _ Hr), Hm. simpl. by run HW.
Qed.

Lemma make_mask_generator_pixel W k :
  healthy W → in_range (ratio k) → mask_type k = Some "pixel" →
  make_mask_generator W k
  = ([EvMaskGenerator (PixelMaskGenerator (ratio k))],
     inr (Some (PixelMaskGenerator (ratio k)))).
Proof.
  intros HW Hr Hm. unfold make_mask_generator.
  rewrite (range_test_in _ Hr), Hm. simpl. by run HW.
Qed.

Lemma make_mask_generator_patch W k :
  healthy W → in_range (ratio k) → mask_type k = Some "patch" →
  make_mask_generator W k
  = ([EvMaskGenerator (PatchMaskGenerator (ratio k))],
     inr (Some (PatchMaskGenerator (ratio k)))).
Proof.
  intros HW Hr Hm. unfold make_mask_generator.
  rewrite (range_test_in _ Hr), Hm. simpl. by run HW.
Qed.

Lemma make_mask_generator_nomask W k :
  in_range (ratio k) → mask_type k = Some "nomask" →
  make_mask_generator W k = ([], inr None).
Proof.
  intros Hr Hm. unfold make_mask_generator.
  by rewrite (range_test_in _ Hr), Hm.
Qed.

(** The generator chosen is the one both transforms are built with. *)
Lemma data_loaders_generator W k a g :
  healthy W →
  EvTrainAugment train_opt g a ∈ trace (data_loaders W k a g)
  ∧ EvValAugment val_opt g a ∈ trace (data_loaders W k a g).
Proof.
  intros HW. unfold data_loaders.
  destruct (arg_smallset a); run HW; split; set_solver.
Qed.

(** C5: with the ratio in range and the collaborators at hand, [spectral]
    constructs a FrequencyMaskGenerator with the ratio and the band, [pixel]
    a PixelMaskGenerator with the ratio, [patch] a PatchMaskGenerator with
    the ratio, and [nomask] constructs nothing: the generator is absent, is
    handed as such to both transforms, and the masking step then returns the
    image as it is. *)
Theorem mask_generator_dispatch (W : World) (k : Kwargs) :
  healthy W →
  in_range (ratio k) →
  (mask_type k = Some "spectral" →
     make_mask_generator W k
     = ([EvMaskGenerator (FrequencyMaskGenerator (ratio k) (band k))],
        inr (Some (FrequencyMaskGenerator (ratio k) (band k)))))
  ∧ (mask_type k = Some "pixel" →
     make_mask_generator W k
     = ([EvMaskGenerator (PixelMaskGenerator (ratio k))],
        inr (Some (PixelMaskGenerator (ratio k)))))
  ∧ (mask_type k = Some "patch" →
     make_mask_generator W k
     = ([EvMaskGenerator (PatchMaskGenerator (ratio k))],
        inr (Some (PatchMaskGenerator (ratio k)))))
  ∧ (mask_type k = Some "nomask" →
     make_mask_generator W k = ([], inr None))
  ∧ (∀ a g, EvTrainAugment train_opt g a ∈ trace (data_loaders W k a g)
            ∧ EvValAugment val_opt g a ∈ trace (data_loaders W k a g))
  ∧ (∀ (Image : Type) (photometric : Image → Image)
       (masking : MaskGenerator → Image → Image) (img : Image),
       apply_mask masking None img = img
       ∧ transform photometric masking None img = photometric img).
Proof.
  intros HW Hr. repeat split.
  - by apply make_mask_generator_spectral.
  - by apply make_mask_generator_pixel.
  - by apply make_mask_generator_patch.
  - by apply make_mask_generator_nomask.
  - by apply data_loaders_generator.
  - by apply data_loaders_generator.
Qed.

Example default_kwargs_run :
  parse_args no_options = inr default_args
  ∧ kwargs (locals default_args) = inr default_kwargs.
Proof. by vm_compute. Qed.

Lemma mask_generator_dispatch_witness :
  make_mask_generator W0 default_kwargs
  = ([EvMaskGenerator (FrequencyMaskGenerator (1 # 2) "all")],
     inr (Some (FrequencyMaskGenerator (1 # 2) "all"))).
Proof.
  apply (mask_generator_dispatch W0 default_kwargs).
  - split; [reflexivity | intros n Hn; exact Hn].
  - split; unfold Qle; simpl; lia.
  - reflexivity.
Defined.

(** * Restoring the checkpoint (lines 132-139) *)

Lemma filter_none {A} (P : A → Prop) `{∀ x, Decision (P x)} (l : list A) :
  (∀ x, x ∈ l → ¬ P x) → filter P l = [].
Proof.
  induction l as [|x l IH]; intros Hl; [done|].
  rewrite filter_cons. destruct (decide (P x)) as [HP|_].
  - destruct (Hl x); [by left | done].
  - apply IH. intros y Hy. apply Hl. by right.
Qed.

Lemma omap_none {A B} (f : A → option B) (l : list A) :
  (∀ x, x ∈ l → f x = None) → omap f l = [].
Proof.
  induction l as [|x l IH]; intros Hl; [done|].
  simpl. rewrite (Hl x) by left. apply IH. intros y Hy. apply Hl. by right.
Qed.


Lemma sd_lookup_copy_from W p sd own key :
  sd_lookup key (copy_from W p sd own)
  = (λ t, match sd_lookup (p +:+ key) sd with
          | Some src => copy_ W t (first_element t src)
          | None => t
          end) <$> sd_lookup key own.
Proof.
  induction own as [|[k' t] own IH]; [done|]. simpl.
  destruct (String.eqb key k') eqn:E; [|done].
  apply String.eqb_eq in E. by subst.
Qed.

Lemma copy_from_keys W p sd own :
  map fst (copy_from W p sd own) = map fst own.
Proof. unfold copy_from. by rewrite map_map. Qed.

Lemma sd_lookup_keys own key :
  key ∈ map fst own → is_Some (sd_lookup key own).
Proof.
  induction own as [|[k' t] own IH]; simpl; [by intros ?%elem_of_nil|].
  intros [->|H]%elem_of_cons.
  - rewrite String.eqb_refl. eauto.
  - destruct (String.eqb key k'); eauto.
Qed.

Lemma sd_lookup_elem own key t :
  sd_lookup key own = Some t → (key, t) ∈ own.
Proof.
  induction own as [|[k' t'] own IH]; simpl; [done|].
  destruct (String.eqb key k') eqn:E.
  - apply String.eqb_eq in E. intros [= ->]. subst. by left.
  - intros H. right. by apply IH.
Qed.

Lemma sd_lookup_key_elem own key t :
  sd_lookup key own = Some t → key ∈ map fst own.
Proof.
  intros H%sd_lookup_elem. apply list_elem_of_fmap. by exists (key, t).
Qed.

Lemma missing_keys_nil own sd key :
  missing_keys own sd = [] → key ∈ map fst own → is_Some (sd_lookup key sd).
Proof.
  unfold missing_keys. intros Hm Hk.
  destruct (sd_lookup key sd) as [t|] eqn:E; [eauto|].
  assert (key ∈ filter (λ k, sd_has k sd = false) (map fst own)) as H.
  { apply list_elem_of_filter. split; [|done]. unfold sd_has. by rewrite E. }
  rewrite Hm in H. by apply elem_of_nil in H.
Qed.



Lemma loadable_true own sd :
  loadable own sd = true →
  missing_keys own sd = [] ∧ unexpected_keys own sd = []
  ∧ size_mismatch own sd = [].
Proof.
  unfold loadable.
  destruct (missing_keys own sd), (unexpected_keys own sd),
    (size_mismatch own sd); done.
Qed.


Lemma first_element_same t : first_element t t = t.
Proof. unfold first_element. by destruct (t_shape t) as [|? [|? ?]]. Qed.

Lemma no_first_element_same t : no_first_element t t = false.
Proof. unfold no_first_element. by destruct (t_shape t) as [|[|?] [|? ?]]. Qed.

(** A tensor written with itself is unchanged; more generally a tensor of
    the own shape and element type is stored as it is. *)
Lemma copy__exact W own src :
  t_shape own = t_shape src → t_dtype own = t_dtype src →
  copy_ W own src = src.
Proof.
  intros Hs Hd. unfold copy_. rewrite decide_True by done.
  rewrite Hs, Hd. by destruct src.
Qed.

Lemma copy__same W t : copy_ W t (first_element t t) = t.
Proof. rewrite first_element_same. by apply copy__exact. Qed.


Lemma load_check_none own sd :
  load_check own sd = None →
  index_errors own sd = [] ∧ loadable own sd = true.
Proof.
  unfold load_check. destruct (index_errors own sd); [|done].
  by destruct (loadable own sd).
Qed.




(** When every own name is in the checkpoint, the entries after the copy
    are loaded from it. *)
Lemma copy_from_loaded W p sd own :
  (∀ key, key ∈ map fst own → is_Some (sd_lookup (p +:+ key) sd)) →
  loaded_from W p sd own (copy_from W p sd own).
Proof.
  intros Hk. split; [apply copy_from_keys|]. intros key t Ht.
  destruct (Hk key) as [src Hsrc]; [by eapply sd_lookup_key_elem|].
  exists src. split; [done|].
  rewrite sd_lookup_copy_from, Ht. simpl. by rewrite Hsrc.
Qed.

Lemma load_head_spec W m sd m' :
  load_head W m sd = inr m' →
  backbone m' = backbone m
  ∧ in_features (fc m') = in_features (fc m)
  ∧ loaded_from W "" sd (head_params (fc m)) (head_params (fc m')).
Proof.
  unfold load_head, load_state_dict.
  destruct (load_check _ sd) eqn:E; [done|]. intros [= <-]. simpl.
  apply load_check_none in E as [_ (Hm & _ & _)%loadable_true].
  split; [done|]. split; [done|]. apply copy_from_loaded.
  intros key Hk. change ("" +:+ key) with key. by eapply missing_keys_nil.
Qed.

Lemma prefix_keys_elem p own key :
  key ∈ map fst own → (p +:+ key) ∈ map fst (prefix_keys p own).
Proof.
  intros H. unfold prefix_keys. rewrite map_map. simpl.
  apply list_elem_of_fmap in H as [kt [-> H]].
  apply list_elem_of_fmap. by exists kt.
Qed.

Lemma append_assoc_module key : "module." +:+ ("fc." +:+ key) = "module.fc." +:+ key.
Proof. reflexivity. Qed.

Lemma load_full_spec W m sd m' :
  load_full W m sd = inr m' →
  in_features (fc m') = in_features (fc m)
  ∧ loaded_from W "module." sd (backbone m) (backbone m')
  ∧ loaded_from W "module.fc." sd (head_params (fc m)) (head_params (fc m')).
Proof.
  unfold load_full.
  destruct (load_check _ sd) eqn:E; [done|]. intros [= <-]. simpl.
  apply load_check_none in E as [_ (Hm & _ & _)%loadable_true].
  split; [done|]. split; apply copy_from_loaded; intros key Hk.
  - apply (missing_keys_nil _ _ _ Hm). apply prefix_keys_elem.
    unfold state_dict. rewrite map_app. apply elem_of_app. by left.
  - apply (missing_keys_nil _ _ _ Hm). rewrite <- append_assoc_module.
    apply prefix_keys_elem. unfold state_dict. rewrite map_app.
    apply elem_of_app. right. by apply prefix_keys_elem.
Qed.

(** With [--pretrained] nothing is loaded. *)
Lemma restore_pretrained W a model :
  arg_pretrained a = true → restore W a model = ret model.
Proof. intros H. unfold restore. by rewrite H. Qed.



Lemma build_model_healthy W k :
  healthy W → recognised (model_name k) →
  ∃ tr model, build_model W k = (tr, inr model).
Proof.
  intros HW Hk. unfold build_model.
  destruct (String.eqb (model_name k) "RN50") eqn:E1; [run HW; eauto|].
  destruct (String.eqb (model_name k) "RN50_mod") eqn:E2; [run HW; eauto|].
  destruct (String.prefix "clip" (model_name k)) eqn:E3; [run HW; eauto|].
  apply String.eqb_neq in E1, E2. destruct Hk as [?|[?|?]]; congruence.
Qed.

(** [main] hands the model it has built to lines 132-151, after everything
    else. *)
Lemma main_reaches_restore W k a :
  healthy W → in_range (ratio k) → args k = Some a →
  recognised (model_name k) →
  ∃ tb model before,
    build_model W k = (tb, inr model)
    ∧ Forall before_training before
    ∧ main W k = (before ++ trace (restore_and_prune W a model),
                  outcome (restore_and_prune W a model))
    ∧ Forall before_restore before.
Proof.
  intros HW Hr Ha Hk.
  destruct (build_model_healthy _ _ HW Hk) as (tb & model & Hb).
  exists tb, model.
  pose proof (events_setup W k) as H1.
  pose proof (events_make_mask_generator W k) as H2.
  pose proof (events_build_model W k) as H4.
  assert (events before_restore (setup W k)) as R1
    by (unfold setup; events_tac).
  assert (events before_restore (make_mask_generator W k)) as R2
    by (unfold make_mask_generator; events_tac).
  assert (events before_restore (build_model W k)) as R4
    by (unfold build_model; events_tac).
  unfold main.
  destruct (setup_healthy _ _ _ HW Ha) as [t1 E1].
  destruct (make_mask_generator_healthy _ _ HW Hr) as (t2 & g & E2).
  pose proof (events_data_loaders W k a g) as H3.
  assert (events before_restore (data_loaders W k a g)) as R3
    by (unfold data_loaders; events_tac).
  destruct (data_loaders_healthy W k a g HW) as [t3 E3].
  rewrite E1 in *. rewrite E2 in *. rewrite Hb in *.
  unfold events, trace in *. simpl in *. rewrite E3 in *. simpl in *.
  unfold optimisation. run HW.
  exists (t1 ++ t2 ++ t3 ++ tb
          ++ [EvBCEWithLogitsLoss; EvAdamW (arg_lr a); EvMultiStepLR]).
  split; [|split; [|split]].
  - done.
  - rewrite !Forall_app. repeat split; try done. by repeat constructor.
  - f_equal. by rewrite <- !app_assoc.
  - rewrite !Forall_app. repeat split; try done. by repeat constructor.
Qed.





(** Three runs of the whole script: a head checkpoint into the CLIP model,
    a full checkpoint into the residual network, and a head checkpoint
    whose weight has three columns where the head has two. *)
Example clip_head_run :
  let run := program W0 (with_checkpoint_path "head.pth"
                           (with_model_name "clip" no_options)) in
  outcome run = inr tt
  ∧ last (trace run)
    = Some (EvIterativePruningFinetuning
              {| backbone := backbone tiny_clip;
                 fc := mkHead 2 head_checkpoint |}
              (1 # 10000) (clip_args "head.pth")).
Proof. by vm_compute. Qed.

Example resnet_full_run :
  let run := program W0 no_options in
  outcome run = inr tt
  ∧ last (trace run)
    = Some (EvIterativePruningFinetuning
              {| backbone := [("conv1.weight", ones [2; 3; 1; 1]%nat)];
                 fc := mkHead 2 (linear_params ones 2 1) |}
              (1 # 10000) default_args).
Proof. by vm_compute. Qed.

Example clip_wide_head_run :
  let run := program W0 (with_checkpoint_path "wide.pth"
                           (with_model_name "clip" no_options)) in
  outcome run = inl load_error
  ∧ last (trace run) = Some (EvLoadStateDict true).
Proof. by vm_compute. Qed.

(** A checkpoint that holds [num_batches_tracked] as an empty vector. *)
Example empty_counter_run :
  let run := program (W_bn empty_counter_checkpoint) no_options in
  outcome run = inl index_error
  ∧ last (trace run) = Some (EvLoadStateDict false).
Proof. by vm_compute. Qed.

(** * The entry point without a mask (lines 266-272, 293-303) *)


Lemma parse_args_mask_type cl a s :
  parse_args cl = inr a → cl_mask_type cl = Some s → arg_mask_type a = s.
Proof.
  unfold parse_args.
  destruct (choice model_name_choices _ _) as [|mn]; [done|].
  destruct (choice band_choices _ _) as [|b]; [done|].
  destruct (choice mask_type_choices _ _) as [|mt] eqn:E3; [done|].
  intros [= <-] Hs; simpl. rewrite Hs in E3. unfold choice in E3.
  case_bool_decide; congruence.
Qed.



(** With another mask type the supplied ratio is the one used. *)
Example spectral_keeps_ratio :
  l_ratio (locals default_args) = 50%Z
  ∧ l_ckpt_folder (locals default_args) = "./checkpoints/mask_50"
  ∧ arg_band (l_args (locals default_args)) = "all".
Proof. by vm_compute. Qed.

(** * Runs that differ in [--num_epochs] only *)

Lemma same_run_bind {A B A' B'} (R : A → B → Prop) (S : A' → B' → Prop)
    (m1 : M A) (m2 : M B) (k1 : A → M A') (k2 : B → M B') :
  same_run R m1 m2 →
  (∀ a b, R a b → same_run S (k1 a) (k2 b)) →
  same_run S (m1 ≫= k1) (m2 ≫= k2).
Proof.
  destruct m1 as [t1 [e1|a]], m2 as [t2 [e2|b]];
    unfold same_run, trace, outcome; simpl; intros [Ht Ho] Hk; try done.
  destruct (Hk a b Ho) as [Ht' Ho']. split; [|done].
  rewrite !map_app. by f_equal.
Qed.

Lemma same_run_seq {A A' B'} (S : A' → B' → Prop)
    (m1 m2 : M A) (k1 : A → M A') (k2 : A → M B') :
  same_run eq m1 m2 →
  (∀ a, same_run S (k1 a) (k2 a)) →
  same_run S (m1 ≫= k1) (m2 ≫= k2).
Proof.
  intros Hm Hk. apply (same_run_bind eq S); [done|]. by intros a b ->.
Qed.

Lemma same_run_refl {A} (m : M A) : same_run eq m m.
Proof. split; [done|]. by destruct (outcome m). Qed.

Lemma same_run_call W ev1 ev2 :
  ignores_num_epochs W → forget ev1 = forget ev2 →
  same_run eq (call W ev1) (call W ev2).
Proof.
  intros HW Hev. unfold call.
  rewrite (HW ev1), (HW ev2), Hev.
  destruct (w_fail W (forget ev2)); (split; [simpl; by f_equal | done]).
Qed.

Lemma same_run_emit ev1 ev2 :
  forget ev1 = forget ev2 → same_run eq (emit ev1) (emit ev2).
Proof. intros Hev. split; [simpl; by f_equal | done]. Qed.

Lemma same_run_ret {A B} (R : A → B → Prop) a b :
  R a b → same_run R (ret a) (ret b).
Proof. by split. Qed.

Lemma same_run_lift {A} (r : Exn + A) : same_run eq (lift r) (lift r).
Proof. apply same_run_refl. Qed.

Ltac same_tac HW :=
  repeat first
    [ apply same_run_refl
    | apply (same_run_call _ _ _ HW); reflexivity
    | apply same_run_emit; reflexivity
    | apply same_run_seq; [| intros ?]
    | match goal with
      | |- same_run _ (if ?b then _ else _) (if ?b then _ else _) =>
          destruct b
      | |- same_run _ (match ?x with _ => _ end) (match ?x with _ => _ end) =>
          destruct x
      end ].

Lemma same_args_fields a b :
  same_args a b → ∃ n, a = set_num_epochs n b.
Proof.
  destruct a, b. unfold same_args, forget_args, set_num_epochs. simpl.
  intros [= -> -> -> -> -> -> -> -> -> -> -> -> -> -> -> -> ->]. eauto.
Qed.

Lemma setup_same_run W k1 k2 a1 a2 :
  ignores_num_epochs W →
  args k1 = Some a1 → args k2 = Some a2 → same_args a1 a2 →
  local_rank k1 = local_rank k2 →
  same_run (λ x y, x = a1 ∧ y = a2) (setup W k1) (setup W k2).
Proof.
  intros HW H1 H2 Ha Hl. unfold setup. rewrite H1, H2, Hl, !ret_bind.
  destruct (same_args_fields _ _ Ha) as [n ->].
  change (arg_seed (set_num_epochs n a2)) with (arg_seed a2).
  same_tac HW. by apply same_run_ret.
Qed.

Lemma main_same_run W k1 k2 a1 a2 :
  ignores_num_epochs W →
  args k1 = Some a1 → args k2 = Some a2 → same_args a1 a2 →
  local_rank k1 = local_rank k2 → ratio k1 = ratio k2 →
  batch_size k1 = batch_size k2 → model_name k1 = model_name k2 →
  band k1 = band k2 → mask_type k1 = mask_type k2 →
  pretrained k1 = pretrained k2 →
  same_run eq (main W k1) (main W k2).
Proof.
  intros HW H1 H2 Ha Hl Hr Hb Hm Hband Hmt Hp. unfold main.
  apply (same_run_bind (λ x y, x = a1 ∧ y = a2)); [by apply setup_same_run|].
  intros ? ? [-> ->].
  destruct (same_args_fields _ _ Ha) as [n ->].
  unfold make_mask_generator, data_loaders, build_model,
    optimisation, restore_and_prune, restore, prune.
  rewrite Hr, Hb, Hm, Hband, Hmt, Hp, Hl.
  cbn [set_num_epochs arg_smallset arg_seed arg_lr arg_pretrained
       arg_checkpoint_path arg_model_name].
  same_tac HW.
Qed.

Lemma parse_args_with_num_epochs n cl :
  parse_args (with_num_epochs n cl)
  = match parse_args cl with
    | inl e => inl e
    | inr a => inr (set_num_epochs n a)
    end.
Proof.
  unfold parse_args, with_num_epochs. simpl.
  destruct (choice model_name_choices _ _); [done|].
  destruct (choice band_choices _ _); [done|].
  by destruct (choice mask_type_choices _ _).
Qed.

Lemma locals_set_num_epochs n a :
  locals (set_num_epochs n a)
  = mkLocals (l_model_name (locals a)) (l_finetune (locals a))
             (l_band (locals a)) (l_ratio (locals a))
             (l_ckpt_folder (locals a))
             (set_num_epochs n (l_args (locals a))).
Proof.
  unfold locals.
  cbn [set_num_epochs arg_model_name arg_pretrained arg_band arg_mask_type
       arg_ratio].
  by destruct (negb _).
Qed.

Lemma kwargs_num_epochs L k : kwargs L = inr k → num_epochs k = 5%Z.
Proof.
  unfold kwargs. destruct (true_div_100 _); [done|]. by intros [= <-].
Qed.

Lemma main_ignores_num_epochs W k n : main W (set_kw_num_epochs n k) = main W k.
Proof. reflexivity. Qed.

Lemma entry_same_run W cl n :
  ignores_num_epochs W →
  same_run eq (entry W (with_num_epochs n cl)) (entry W cl).
Proof.
  intros HW. unfold entry. rewrite parse_args_with_num_epochs.
  apply same_run_seq; [apply same_run_refl | intros _].
  destruct (parse_args cl) as [e|a]; [apply same_run_refl|].
  rewrite !lift_value_bind, locals_set_num_epochs.
  cbn [l_ratio l_args].
  apply same_run_seq; [by apply same_run_emit | intros _].
  unfold kwargs. cbn [l_ratio l_args].
  destruct (true_div_100 _) as [e|r]; [apply same_run_refl|].
  rewrite !lift_value_bind.
  eapply (main_same_run W); try reflexivity; done.
Qed.

(** C8: the value of [--num_epochs] never reaches anything the script
    does.  The entry point calls [main] with [num_epochs=5] whatever the
    command line says; [main] does not read its [num_epochs] parameter (the
    run is the same for every value of it); and two command lines that
    differ in [--num_epochs] only give the same run, event for event up to
    the copy of the option kept in the namespace handed to the collaborators,
    as long as those do not read it. *)
Theorem num_epochs_never_affects_execution
    (W : World) (cl : CommandLine) (n : Z) :
  ignores_num_epochs W →
  (∀ L k, kwargs L = inr k → num_epochs k = 5%Z)
  ∧ (∀ k m, main W (set_kw_num_epochs m k) = main W k)
  ∧ same_run eq (program W (with_num_epochs n cl)) (program W cl).
Proof.
  intros HW. split; [apply kwargs_num_epochs|].
  split; [intros; apply main_ignores_num_epochs|].
  unfold program.
  apply same_run_seq; [apply same_run_refl | intros _].
  by apply entry_same_run.
Qed.

Lemma num_epochs_never_affects_execution_witness :
  (∀ L k, kwargs L = inr k → num_epochs k = 5%Z)
  ∧ (∀ k m, main W0 (set_kw_num_epochs m k) = main W0 k)
  ∧ same_run eq (program W0 (with_num_epochs 300 no_options))
                (program W0 no_options).
Proof.
  apply (num_epochs_never_affects_execution W0 no_options 300).
  intros ev. reflexivity.
Defined.

(** The option is parsed: it is in the namespace, and nowhere else. *)
Example num_epochs_300_run :
  match kwargs (locals (set_num_epochs 300 default_args)) with
  | inr k => num_epochs k = 5%Z ∧ arg_num_epochs <$> args k = Some 300%Z
  | inl _ => False
  end.
Proof. by vm_compute. Qed.

(** * Validation augmentation, sample by sample *)

Lemma valid_draws_low : valid_draws draws_low.
Proof. repeat split; by vm_compute. Qed.

Lemma valid_draws_high : valid_draws draws_high.
Proof. repeat split; by vm_compute. Qed.

(** C7, as stated, fails: with the probabilities 0.1 of [val_opt] one sample
    is blurred and re-encoded and another is left alone. *)
Lemma val_opt_not_deterministic :
  perturbations val_opt draws_low = [Blur (3 # 2); Jpeg "pil" 65]
  ∧ perturbations val_opt draws_high = []
  ∧ ¬ deterministic val_opt.
Proof.
  split; [by vm_compute|]. split; [by vm_compute|].
  intros H.
  specialize (H draws_low draws_high valid_draws_low valid_draws_high).
  by vm_compute in H.
Qed.

Lemma Qfloor_unit_interval u : unit_interval u → Qfloor u = 0%Z.
Proof.
  intros [H0 H1]. apply Z.le_antisymm.
  - apply Z.lt_succ_r. rewrite Zlt_Qlt.
    eapply Qle_lt_trans; [apply Qfloor_le | exact H1].
  - change 0%Z with (Qfloor 0). by apply Qfloor_resp_le.
Qed.

Lemma pick_method_singleton m u :
  unit_interval u → pick_method [m] u = Some m.
Proof.
  intros Hu. unfold pick_method. simpl length.
  assert (H : (u * inject_Z (Z.of_nat 1) == u)%Q) by (simpl; ring).
  by rewrite H, (Qfloor_unit_interval _ Hu).
Qed.

(** C7, amended: outside the perturbation parameters the two configurations
    agree, probabilities included; the validation sigma and quality are the
    single midpoints of the training ranges, the validation method is the
    single method pil, itself one of the training methods; so whatever is
    drawn for a sample, a blur has sigma 3/2 and a re-encoding is by pil at
    quality 65.  Whether either is applied is still drawn per sample, with
    the same probability 0.1 as in training. *)
Theorem val_opt_midpoints_fixed_parameters (d : Draws) :
  valid_draws d →
  rz_interp val_opt = rz_interp train_opt
  ∧ loadSize val_opt = loadSize train_opt
  ∧ blur_prob val_opt = blur_prob train_opt
  ∧ jpg_prob val_opt = jpg_prob train_opt
  ∧ Some (blur_sig val_opt) = (λ m, [m]) <$> midpoint (blur_sig train_opt)
  ∧ Some (jpg_qual val_opt)
    = (λ m, [py_int m]) <$> midpoint (inject_Z <$> jpg_qual train_opt)
  ∧ jpg_method val_opt = ["pil"]
  ∧ "pil" ∈ jpg_method train_opt
  ∧ perturbations val_opt d
    = (if Qlt_bool (u_blur d) (1 # 10) then [Blur (3 # 2)] else [])
      ++ (if Qlt_bool (u_jpg d) (1 # 10) then [Jpeg "pil" 65] else []).
Proof.
  intros (_ & _ & _ & Hm & _).
  do 7 (split; [by vm_compute|]).
  split; [by apply (bool_decide_unpack _)|].
  unfold perturbations. cbn [val_opt blur_prob blur_sig jpg_prob jpg_method jpg_qual].
  rewrite (pick_method_singleton _ _ Hm). reflexivity.
Qed.

Lemma val_opt_midpoints_fixed_parameters_witness :
  rz_interp val_opt = rz_interp train_opt
  ∧ loadSize val_opt = loadSize train_opt
  ∧ blur_prob val_opt = blur_prob train_opt
  ∧ jpg_prob val_opt = jpg_prob train_opt
  ∧ Some (blur_sig val_opt) = (λ m, [m]) <$> midpoint (blur_sig train_opt)
  ∧ Some (jpg_qual val_opt)
    = (λ m, [py_int m]) <$> midpoint (inject_Z <$> jpg_qual train_opt)
  ∧ jpg_method val_opt = ["pil"]
  ∧ "pil" ∈ jpg_method train_opt
  ∧ perturbations val_opt draws_low
    = (if Qlt_bool (u_blur draws_low) (1 # 10) then [Blur (3 # 2)] else [])
      ++ (if Qlt_bool (u_jpg draws_low) (1 # 10) then [Jpeg "pil" 65] else []).
Proof.
  apply (val_opt_midpoints_fixed_parameters draws_low).
  repeat split; vm_compute; congruence.
Defined.

(** Training, for comparison, draws its parameters too. *)
Example train_opt_draws_parameters :
  perturbations train_opt (mkDraws 0 0 0 0 0) = [Blur 0; Jpeg "cv2" 30]
  ∧ perturbations train_opt (mkDraws 0 (1 # 2) 0 (1 # 2) (1 # 2))
    = [Blur (3 # 2); Jpeg "pil" 65].
Proof. by vm_compute. Qed.

(** ** Pruning never revives a weight *)

Section PruningFacts.
Import Pruning.

Variable count : Q → nat → nat.
Variable fine_tune : nat → Net → list (list Q).

Lemma zero_out_false chosen (mask : list bool) i :
  mask !! i = Some false → zero_out chosen mask !! i = Some false.
Proof.
  intros Hm. induction chosen as [|j chosen IH]; simpl; [done|].
  destruct (decide (j = i)) as [->|Hne].
  - apply list_lookup_insert_eq. by eapply lookup_lt_Some.
  - by rewrite list_lookup_insert_ne.
Qed.

Lemma zero_out_length chosen (mask : list bool) :
  length (zero_out chosen mask) = length mask.
Proof.
  induction chosen as [|j chosen IH]; simpl; [done|].
  by rewrite length_insert.
Qed.

(** A chosen position inside the mask is zeroed. *)
Lemma zero_out_chosen chosen (mask : list bool) i :
  i ∈ chosen → (i < length mask)%nat → zero_out chosen mask !! i = Some false.
Proof.
  intros Hin Hlt. induction chosen as [|j chosen IH]; simpl.
  - by apply elem_of_nil in Hin.
  - destruct (decide (j = i)) as [->|Hne].
    + apply list_lookup_insert_eq. by rewrite zero_out_length.
    + rewrite list_lookup_insert_ne by done. apply IH.
      apply elem_of_cons in Hin as [?|?]; [congruence | done].
Qed.

Lemma prune_layer_zeroed amount l i :
  keep l !! i = Some false →
  keep (prune_layer count amount l) !! i = Some false.
Proof. intros H. unfold prune_layer. simpl. by apply zero_out_false. Qed.

Lemma prune_local_zeroed conv_amount linear_amount net p :
  zeroed net p → zeroed (prune_local count conv_amount linear_amount net) p.
Proof.
  unfold zeroed, keep_at, prune_local. rewrite list_lookup_fmap.
  destruct (net !! fst p) as [l|]; simpl; [|done].
  apply prune_layer_zeroed.
Qed.

Lemma prune_pool_zeroed k amount net p :
  zeroed net p → zeroed (prune_pool count k amount net) p.
Proof.
  unfold zeroed, keep_at, prune_pool. rewrite list_lookup_imap.
  destruct (net !! fst p) as [l|]; simpl; [|done].
  apply zero_out_false.
Qed.

Lemma prune_round_zeroed net conv_amount linear_amount global_scope p :
  zeroed net p →
  zeroed (prune_round count net conv_amount linear_amount global_scope) p.
Proof.
  intros H. unfold prune_round, prune_global. destruct global_scope.
  - by do 2 apply prune_pool_zeroed.
  - by apply prune_local_zeroed.
Qed.

Lemma set_weights_keep_at ws net p :
  keep_at (set_weights ws net) p = keep_at net p.
Proof.
  unfold keep_at, set_weights. rewrite list_lookup_imap.
  by destruct (net !! fst p).
Qed.

Lemma round_zeroed c r net p :
  zeroed net p → zeroed (round count fine_tune c r net) p.
Proof.
  intros H. unfold round.
  destruct (pruning_test c && negb (pruning_ft c)); [done|].
  destruct (pruning_ft c).
  - unfold zeroed. rewrite set_weights_keep_at. by apply prune_round_zeroed.
  - by apply prune_round_zeroed.
Qed.

Lemma after_rounds_le c net p r1 r2 :
  (r1 ≤ r2)%nat →
  zeroed (after_rounds count fine_tune c r1 net) p →
  zeroed (after_rounds count fine_tune c r2 net) p.
Proof.
  induction 1 as [|r2 Hle IH]; [done|].
  intros H. simpl. apply round_zeroed. by apply IH.
Qed.

Lemma zeroed_effective net p :
  zeroed net p → ∀ w, effective net p = Some w → w = 0%Q.
Proof.
  unfold zeroed, keep_at, effective.
  destruct (net !! fst p) as [l|]; [|done].
  intros ->. destruct (weight l !! snd p); [|done]. by intros w [= <-].
Qed.

(** C2: the zeroed positions after round [r1] are among the zeroed
    positions after any later round [r2], whatever amounts, scope and mode
    are configured, however many weights an amount removes and whatever the
    fine-tune loop does to the weights in between; and the weight the
    network computes with at such a position stays 0. *)
Theorem pruning_is_monotonic (c : Config) (net : Net) (r1 r2 : nat)
    (p : Position) :
  (r1 < r2)%nat →
  zeroed (after_rounds count fine_tune c r1 net) p →
  zeroed (after_rounds count fine_tune c r2 net) p
  ∧ ∀ w, effective (after_rounds count fine_tune c r2 net) p = Some w →
         w = 0%Q.
Proof.
  intros Hlt H.
  assert (H2 : zeroed (after_rounds count fine_tune c r2 net) p).
  { eapply after_rounds_le; [|exact H]. lia. }
  split; [done | by apply zeroed_effective].
Qed.

End PruningFacts.

Example local_rounds :
  Pruning.keep <$> Pruning.after_rounds Pruning.count_floor example_fine_tune
                     (example_config false) 1 example_net
  = [[true; false; true; false; true; false]; [true; true; true; false]]
  ∧ Pruning.keep <$> Pruning.after_rounds Pruning.count_floor
                       example_fine_tune (example_config false) 2 example_net
    = [[true; false; true; false; false; false]; [true; true; true; false]]
  ∧ Pruning.keep <$> Pruning.orchestrate Pruning.count_floor
                       example_fine_tune (example_config false) example_net
    = [[true; false; false; false; false; false]; [true; true; true; false]].
Proof. by vm_compute. Qed.

Lemma pruning_is_monotonic_witness :
  Pruning.zeroed
    (Pruning.after_rounds Pruning.count_floor example_fine_tune
       (example_config false) 3 example_net) (0%nat, 3%nat)
  ∧ ∀ w,
      Pruning.effective
        (Pruning.after_rounds Pruning.count_floor example_fine_tune
           (example_config false) 3 example_net) (0%nat, 3%nat) = Some w →
      w = 0%Q.
Proof.
  apply (pruning_is_monotonic Pruning.count_floor example_fine_tune
           (example_config false) example_net 1 3 (0%nat, 3%nat)).
  - lia.
  - reflexivity.
Defined.

(** * Further properties of [main] and the entry point *)

(** ** No namespace *)

(** X1: [main] called without a namespace (its own default [args=None])
    stops on line 48 with AttributeError, before any seed is set and before
    any collaborator is called, whatever the other arguments are. *)
Theorem main_without_namespace (W : World) (k : Kwargs) :
  args k = None →
  main W k
  = ([], inl (AttributeError "'NoneType' object has no attribute 'seed'")).
Proof. intros H. unfold main, setup. by rewrite H. Qed.

Lemma main_without_namespace_witness :
  main W0 main_defaults
  = ([], inl (AttributeError "'NoneType' object has no attribute 'seed'")).
Proof. apply (main_without_namespace W0 main_defaults). reflexivity. Defined.

(** ** Mask types [main] does not name *)

(** X2: [main] itself never rejects a mask type.  With the ratio in range,
    every value other than spectral, pixel and patch (nomask, a misspelling,
    the default None) constructs no generator, calls no collaborator and
    raises nothing. *)
Theorem other_mask_types_fall_through (W : World) (k : Kwargs) :
  in_range (ratio k) →
  mask_type k ∉ masking_types →
  make_mask_generator W k = ([], inr None).
Proof.
  intros Hr Hm. unfold make_mask_generator. rewrite (range_test_in _ Hr).
  unfold masking_types in Hm.
  rewrite !bool_decide_eq_false_2; [done | | |]; intros E; apply Hm;
    rewrite E; set_solver.
Qed.

Lemma other_mask_types_fall_through_witness :
  make_mask_generator W0
    (mkKwargs 0 8 6 5 (1 # 2) 64 "RN50" "all" (Some "spectal") false
              (Some default_args))
  = ([], inr None).
Proof.
  apply other_mask_types_fall_through.
  - split; unfold Qle; simpl; lia.
  - simpl. intros H.
    repeat (apply elem_of_cons in H as [H|H]; [discriminate|]).
    by apply elem_of_nil in H.
Defined.

(** ** Which ratios pass the test of line 82 *)

Lemma in_range_Qred q : in_range (Qred q) ↔ in_range q.
Proof. unfold in_range. by rewrite (Qred_correct q). Qed.

Lemma in_range_percent n : in_range (n # 100) ↔ (0 ≤ n ≤ 100)%Z.
Proof. unfold in_range, Qle. simpl. lia. Qed.

Lemma true_div_100_value n r : true_div_100 n = inr r → r = Qred (n # 100).
Proof. unfold true_div_100. case_match; congruence. Qed.

(** X3: counted from the command line, the ratio [main] receives passes the
    range test exactly when the mask type is nomask (the ratio is then 0
    whatever was supplied) or the supplied percentage lies between 0 and
    100, both ends included. *)
Theorem ratio_accepted_iff (a : Args) (k : Kwargs) :
  kwargs (locals a) = inr k →
  in_range (ratio k)
  ↔ arg_mask_type a = "nomask" ∨ (0 ≤ arg_ratio a ≤ 100)%Z.
Proof.
  unfold kwargs. destruct (true_div_100 _) as [|r] eqn:E; [done|].
  intros [= <-]. cbn [ratio]. apply true_div_100_value in E. subst r.
  rewrite in_range_Qred, in_range_percent. unfold locals.
  destruct (String.eqb (arg_mask_type a) "nomask") eqn:En; cbn [negb l_ratio].
  - apply String.eqb_eq in En. split; [by left | lia].
  - apply String.eqb_neq in En. split; [by right | by intros [?|?]].
Qed.

Lemma ratio_accepted_iff_witness :
  in_range (ratio default_kwargs)
  ↔ arg_mask_type default_args = "nomask" ∨ (0 ≤ arg_ratio default_args ≤ 100)%Z.
Proof. apply (ratio_accepted_iff default_args default_kwargs). reflexivity. Defined.

(** X4: in every world, a ratio outside [0,1] stops [main] with an exception
    before a mask generator, a transform, a dataset or a loader is made, and
    before anything is loaded or trained; when the steps before the test run
    through and no star import binds [valueError], the exception is the
    NameError of that name. *)
Theorem ratio_out_of_range_stops_early (W : World) (k : Kwargs) :
  ¬ in_range (ratio k) →
  aborts (λ ev, is_mask_or_data ev = false ∧ is_load ev = false
                ∧ is_training ev = false) (main W k)
  ∧ (healthy W → is_Some (args k) → "valueError" ∉ w_star_names W →
     outcome (main W k) = inl (NameError "valueError")).
Proof.
  intros Hr. split.
  - unfold main.
    apply aborts_bind_r; [unfold setup; events_tac | intros a].
    apply aborts_bind_l. unfold make_mask_generator.
    rewrite (range_test_out _ Hr).
    apply aborts_bind_r; [apply events_global | intros _].
    apply aborts_raise.
  - intros HW Ha Hn. by apply out_of_range_NameError.
Qed.

Lemma ratio_out_of_range_stops_early_witness :
  aborts (λ ev, is_mask_or_data ev = false ∧ is_load ev = false
                ∧ is_training ev = false)
         (main W0 (mkKwargs 0 8 6 5 (3 # 2) 64 "RN50" "all" (Some "spectral")
                            false (Some default_args)))
  ∧ (healthy W0 →
     is_Some (args (mkKwargs 0 8 6 5 (3 # 2) 64 "RN50" "all"
                             (Some "spectral") false (Some default_args))) →
     "valueError" ∉ w_star_names W0 →
     outcome (main W0 (mkKwargs 0 8 6 5 (3 # 2) 64 "RN50" "all"
                                (Some "spectral") false (Some default_args)))
     = inl (NameError "valueError")).
Proof.
  apply ratio_out_of_range_stops_early.
  intros [_ H]. revert H. unfold Qle. simpl. lia.
Defined.

(** ** Runs that come back from a phase *)

Lemma events_bind_outcome {A B} P (m : M A) (k : A → M B) :
  events P m → (∀ a, outcome m = inr a → events P (k a)) →
  events P (m ≫= k).
Proof.
  unfold events. destruct m as [t [e|a]]; simpl; intros Ht Hk; [done|].
  apply Forall_app; split; [done | by apply Hk].
Qed.

Lemma bind_outcome_value {A B} (m : M A) (k : A → M B) b :
  outcome (m ≫= k) = inr b →
  ∃ a, outcome m = inr a ∧ outcome (k a) = inr b.
Proof. destruct m as [t [e|a]]; simpl; [done | eauto]. Qed.

Lemma setup_returns_namespace W k a :
  outcome (setup W k) = inr a → args k = Some a.
Proof.
  unfold setup. intros H.
  apply bind_outcome_value in H as (a0 & Ha0 & H).
  destruct (args k) as [a1|]; [|done]. injection Ha0 as ->.
  repeat (apply bind_outcome_value in H as (? & _ & H)).
  by injection H as ->.
Qed.

(** ** With [--pretrained] *)

(** X5: when the namespace has [pretrained] set, no run of [main] reads a
    checkpoint file or loads a state dict, in any world: lines 133-139 are
    skipped as a whole. *)
Theorem pretrained_loads_nothing (W : World) (k : Kwargs) (a : Args) :
  args k = Some a →
  arg_pretrained a = true →
  events (λ ev, is_load ev = false) (main W k).
Proof.
  intros Ha Hp. unfold main.
  apply events_bind_outcome; [unfold setup; events_tac | intros a' Ha'].
  apply setup_returns_namespace in Ha'. rewrite Ha in Ha'. injection Ha' as <-.
  apply events_bind; [unfold make_mask_generator; events_tac | intros g].
  apply events_bind; [unfold data_loaders; events_tac | intros _].
  apply events_bind; [unfold build_model; events_tac | intros model].
  apply events_bind; [unfold optimisation; events_tac | intros _].
  unfold restore_and_prune. rewrite (restore_pretrained _ _ _ Hp), ret_bind.
  unfold prune. events_tac.
Qed.

Lemma pretrained_loads_nothing_witness :
  events (λ ev, is_load ev = false) (main W0 pretrained_kwargs).
Proof.
  apply (pretrained_loads_nothing W0 pretrained_kwargs pretrained_args);
    reflexivity.
Defined.

(** ** A checkpoint without the expected entry *)

(** X6: when the file read by [torch.load] has no entry
    ['model_state_dict'], the run stops with KeyError right after the file
    is read: no state dict is loaded and the pruning loop is not called. *)
Theorem checkpoint_without_state_dict (W : World) (a : Args) (model : Model) :
  healthy W →
  arg_pretrained a = false →
  w_torch_load W (arg_checkpoint_path a) !! "model_state_dict" = None →
  restore_and_prune W a model
  = ([EvTorchLoad (arg_checkpoint_path a)], inl (KeyError "model_state_dict")).
Proof.
  intros HW Hp Hk. unfold restore_and_prune, restore.
  rewrite Hp, Hk. cbn [negb]. by run HW.
Qed.

Lemma checkpoint_without_state_dict_witness :
  restore_and_prune W_empty_checkpoint default_args built_resnet
  = ([EvTorchLoad "./checkpoints/mask_0/rn50ft.pth"],
     inl (KeyError "model_state_dict")).
Proof.
  apply (checkpoint_without_state_dict W_empty_checkpoint default_args
           built_resnet).
  - split; [reflexivity | intros n Hn; exact Hn].
  - reflexivity.
  - reflexivity.
Defined.

(** ** What the entry point hands to [main] *)

Lemma choices_clip s :
  s ∈ model_name_choices → String.prefix "clip" s = String.eqb s "clip".
Proof.
  unfold model_name_choices. intros H.
  repeat (apply elem_of_cons in H as [->|H]; [reflexivity|]).
  by apply elem_of_nil in H.
Qed.

(** X7: for every command line the parser accepts, [main]'s own
    [model_name] and [pretrained] are the namespace's, so the two places
    that look at them agree: the model is built by [CLIPModel] (a
    clip-prefixed name, line 119) exactly when the checkpoint is loaded
    into the head only (the name clip itself, line 136). *)
Theorem entry_keeps_dispatches_aligned (cl : CommandLine) (a : Args)
    (k : Kwargs) :
  parse_args cl = inr a →
  kwargs (locals a) = inr k →
  ∃ a', args k = Some a'
        ∧ model_name k = arg_model_name a'
        ∧ pretrained k = arg_pretrained a'
        ∧ band k = arg_band a'
        ∧ mask_type k = Some (arg_mask_type a')
        ∧ String.prefix "clip" (model_name k)
          = String.eqb (arg_model_name a') "clip".
Proof.
  intros Hp Hk. destruct (parse_args_model_name _ _ Hp) as [Hin _].
  unfold kwargs in Hk. destruct (true_div_100 _); [done|].
  injection Hk as <-. exists (l_args (locals a)). cbn.
  repeat split. apply choices_clip. by rewrite locals_model_name.
Qed.

Lemma entry_keeps_dispatches_aligned_witness :
  ∃ a', args default_kwargs = Some a'
        ∧ model_name default_kwargs = arg_model_name a'
        ∧ pretrained default_kwargs = arg_pretrained a'
        ∧ band default_kwargs = arg_band a'
        ∧ mask_type default_kwargs = Some (arg_mask_type a')
        ∧ String.prefix "clip" (model_name default_kwargs)
          = String.eqb (arg_model_name a') "clip".
Proof.
  apply (entry_keeps_dispatches_aligned no_options default_args default_kwargs);
    reflexivity.
Defined.

(** Called directly, the two tests can disagree: a clip-prefixed name other
    than clip builds the CLIP model and then loads the checkpoint into the
    whole wrapped model, so a head checkpoint is refused. *)
Example clip_prefixed_name_loads_full :
  let a := mkArgs 0 2 "clip_vitl14" "all" false false "spectral" 64 50
                  (1 # 10000) false false false (2 # 10) (1 # 10) 1 44
                  "head.pth" in
  let run := main W0 (mkKwargs 0 8 6 5 (1 # 2) 64 "clip_vitl14" "all"
                               (Some "spectral") false (Some a)) in
  EvCLIPModel "ViT-L/14" 1 ∈ trace run
  ∧ last (trace run) = Some (EvLoadStateDict false)
  ∧ outcome run = inl load_error.
Proof.
  vm_compute. split; [|done].
  repeat (first [apply list_elem_of_here | apply list_elem_of_further]).
Qed.

(** ** The device *)

(** Decompose a goal [events (device_ok r) m] along the structure of [m]. *)
Ltac device_tac :=
  repeat first
    [ apply events_ret
    | apply events_raise
    | apply events_lift
    | apply events_global
    | apply events_call; by unfold device_ok
    | apply events_emit; by unfold device_ok
    | apply events_bind; [| intros ?]
    | match goal with
      | |- events _ (if ?b then _ else _) => destruct b
      | |- events _ (match ?x with _ => _ end) => destruct x
      end ].

Lemma events_main_device W k : events (device_ok (local_rank k)) (main W k).
Proof.
  unfold main, setup, make_mask_generator, data_loaders, build_model,
    optimisation, restore_and_prune, restore, prune.
  device_tac.
Qed.

Lemma parse_args_local_rank cl a :
  parse_args cl = inr a → arg_local_rank a = default 0%Z (cl_local_rank cl).
Proof.
  unfold parse_args.
  destruct (choice model_name_choices _ _) as [|mn]; [done|].
  destruct (choice band_choices _ _) as [|b]; [done|].
  destruct (choice mask_type_choices _ _) as [|mt]; [done|].
  by intros [= <-].
Qed.

Lemma locals_local_rank a :
  arg_local_rank (l_args (locals a)) = arg_local_rank a.
Proof. unfold locals. by destruct (negb _). Qed.

Lemma kwargs_local_rank L k :
  kwargs L = inr k → local_rank k = arg_local_rank (l_args L).
Proof.
  unfold kwargs. destruct (true_div_100 _); [done|]. by intros [= <-].
Qed.

(** X8: the device is the one of the option [--local_rank], 0 when the
    option is absent.  Line 32 reads LOCAL_RANK and drops the value; in
    every world, whatever the environment holds, every call of
    [torch.cuda.set_device] and every [model.to] of a run of the script is
    given [cuda:<--local_rank>]. *)
Theorem device_is_local_rank_option (W : World) (cl : CommandLine) :
  events (device_ok (default 0%Z (cl_local_rank cl))) (program W cl).
Proof.
  unfold program. apply events_bind; [|intros _].
  - unfold module_level.
    apply events_bind; [by apply events_run_imports | intros _].
    device_tac.
  - unfold entry. apply events_bind; [device_tac | intros _].
    apply events_bind_outcome; [apply events_lift | intros a Ha].
    cbv zeta. apply events_bind; [device_tac | intros _].
    apply events_bind_outcome; [apply events_lift | intros k Hk].
    unfold outcome, lift in Ha, Hk. simpl in Ha, Hk.
    rewrite <- (parse_args_local_rank _ _ Ha), <- locals_local_rank,
      <- (kwargs_local_rank _ _ Hk).
    apply events_main_device.
Qed.

(** With LOCAL_RANK=0 and [--local_rank 3] both calls are given
    [cuda:3]. *)
Example local_rank_3_run :
  w_environ W0 !! "LOCAL_RANK" = Some "0"
  ∧ omap device_of (trace (program W0 (with_local_rank 3 no_options)))
    = [3%Z; 3%Z].
Proof. by vm_compute. Qed.

(** ** The pruning loop is the last thing [main] does *)

Lemma training_last_bind {A B} (m : M A) (k : A → M B) :
  events before_training m →
  (∀ a, training_last (trace (k a))) →
  training_last (trace (m ≫= k)).
Proof.
  intros Hm Hk. destruct m as [t [e|a]].
  - exists t, []. split; [by rewrite app_nil_r|]. split; [done | by left].
  - destruct (Hk a) as (before & after & Ht & Hb & Ha).
    exists (t ++ before), after. split; [|split; [|done]].
    + unfold trace in *. simpl. by rewrite Ht, app_assoc.
    + apply Forall_app. by split.
Qed.

Lemma training_last_prune W a model : training_last (trace (prune W a model)).
Proof.
  unfold prune, global, call. case_bool_decide.
  - destruct (w_fail W _);
      exists [], [EvIterativePruningFinetuning model (arg_lr a) a];
      simpl; eauto 10.
  - exists [], []. simpl. eauto.
Qed.

Lemma events_restore W a model : events before_training (restore W a model).
Proof. unfold restore. events_tac. Qed.

Lemma events_optimisation W a : events before_training (optimisation W a).
Proof. unfold optimisation. events_tac. Qed.

(** X9: in every world and for every call, [main] enters the pruning and
    fine-tuning loop at most once, and nothing happens after it: the model
    it returns is neither saved nor evaluated by [prune.py]. *)
Theorem pruning_is_last (W : World) (k : Kwargs) :
  training_last (trace (main W k)).
Proof.
  unfold main.
  apply training_last_bind; [apply events_setup | intros a].
  apply training_last_bind; [apply events_make_mask_generator | intros g].
  apply training_last_bind; [apply events_data_loaders | intros _].
  apply training_last_bind; [apply events_build_model | intros model].
  apply training_last_bind; [apply events_optimisation | intros _].
  unfold restore_and_prune.
  apply training_last_bind; [apply events_restore | intros model'].
  apply training_last_prune.
Qed.

(** ** What the generator and the model depend on *)

(** X10: the band reaches the mask generator only for spectral: for every
    other mask type the generator made, the calls made for it and the
    outcome are the same whatever band is passed. *)
Theorem band_only_for_spectral (W : World) (k : Kwargs) (b : string) :
  mask_type k ≠ Some "spectral" →
  make_mask_generator W (set_kw_band b k) = make_mask_generator W k.
Proof.
  intros Hm. unfold make_mask_generator, set_kw_band. cbn [ratio mask_type band].
  by rewrite (bool_decide_eq_false_2 _ Hm).
Qed.

Lemma band_only_for_spectral_witness :
  make_mask_generator W0
    (set_kw_band "low"
       (mkKwargs 0 8 6 5 (1 # 2) 64 "RN50" "all" (Some "pixel") false
                 (Some default_args)))
  = make_mask_generator W0
      (mkKwargs 0 8 6 5 (1 # 2) 64 "RN50" "all" (Some "pixel") false
                (Some default_args)).
Proof. apply band_only_for_spectral. discriminate. Defined.

Lemma prefix_clip_not_resnet s :
  String.prefix "clip" s = true →
  String.eqb s "RN50" = false ∧ String.eqb s "RN50_mod" = false.
Proof.
  destruct s as [|c s]; [done|]. intros H.
  change (match ascii_dec "c" c with
          | left _ => String.prefix "lip" s
          | right _ => false
          end = true) in H.
  destruct (ascii_dec "c" c) as [<-|]; [|done]. split; reflexivity.
Qed.

(** X11: every clip-prefixed name builds the same model: [CLIPModel] is
    called with ViT-L/14 and one class whatever follows the prefix, and
    [pretrained] is not passed on to it. *)
Theorem clip_names_build_one_model (W : World) (k : Kwargs) (s : string)
    (p : bool) :
  String.prefix "clip" (model_name k) = true →
  String.prefix "clip" s = true →
  build_model W (set_kw_pretrained p (set_kw_model_name s k))
  = build_model W k
  ∧ events (λ ev, ev = EvCLIPModel "ViT-L/14" 1 ∨ ev = EvToDevice (local_rank k)
                  ∨ ev = EvDistributedDataParallel) (build_model W k).
Proof.
  intros Hk Hs.
  destruct (prefix_clip_not_resnet _ Hk) as [E1 E2].
  destruct (prefix_clip_not_resnet _ Hs) as [F1 F2].
  unfold build_model, set_kw_pretrained, set_kw_model_name.
  cbn [model_name pretrained local_rank].
  rewrite E1, E2, F1, F2, Hk, Hs. split; [done|].
  repeat (apply events_bind; [|intros ?]);
    first [apply events_ret | apply events_call; eauto].
Qed.

Lemma clip_names_build_one_model_witness :
  let k := mkKwargs 0 8 6 5 (1 # 2) 64 "clip" "all" (Some "spectral") false
                    (Some (clip_args "head.pth")) in
  build_model W0 (set_kw_pretrained true (set_kw_model_name "clip_rn50" k))
  = build_model W0 k
  ∧ events (λ ev, ev = EvCLIPModel "ViT-L/14" 1 ∨ ev = EvToDevice (local_rank k)
                  ∨ ev = EvDistributedDataParallel) (build_model W0 k).
Proof.
  apply (clip_names_build_one_model W0
           (mkKwargs 0 8 6 5 (1 # 2) 64 "clip" "all" (Some "spectral") false
                     (Some (clip_args "head.pth"))) "clip_rn50" true);
    reflexivity.
Defined.

(** ** Without [--smallset] *)

(** X12: when the namespace does not have [smallset] set, no run of [main]
    samples the training set or wraps it in a Subset, in any world. *)
Theorem no_smallset_no_subsample (W : World) (k : Kwargs) (a : Args) :
  args k = Some a →
  arg_smallset a = false →
  events (λ ev, is_subsample ev = false) (main W k).
Proof.
  intros Ha Hs. unfold main.
  apply events_bind_outcome; [unfold setup; events_tac | intros a' Ha'].
  apply setup_returns_namespace in Ha'. rewrite Ha in Ha'. injection Ha' as <-.
  apply events_bind; [unfold make_mask_generator; events_tac | intros g].
  apply events_bind; [unfold data_loaders; rewrite Hs; events_tac | intros _].
  apply events_bind; [unfold build_model; events_tac | intros model].
  apply events_bind; [unfold optimisation; events_tac | intros _].
  unfold restore_and_prune, restore, prune. events_tac.
Qed.

Lemma no_smallset_no_subsample_witness :
  events (λ ev, is_subsample ev = false) (main W0 default_kwargs).
Proof.
  apply (no_smallset_no_subsample W0 default_kwargs default_args); reflexivity.
Defined.

(** ** Checkpoints of the wrapped and of the bare model *)

Lemma sd_lookup_NoDup sd k t :
  NoDup (map fst sd) → (k, t) ∈ sd → sd_lookup k sd = Some t.
Proof.
  induction sd as [|[k' t'] sd IH]; simpl; [by intros _ ?%elem_of_nil|].
  intros [Hk' Hnd]%NoDup_cons [[= -> ->]|Hin]%elem_of_cons.
  - by rewrite String.eqb_refl.
  - destruct (String.eqb k k') eqn:E; [|by apply IH].
    apply String.eqb_eq in E as ->. destruct Hk'.
    apply list_elem_of_fmap. by exists (k', t).
Qed.

Lemma copy_from_same W p sd own :
  (∀ k t, (k, t) ∈ own → sd_lookup (p +:+ k) sd = Some t) →
  copy_from W p sd own = own.
Proof.
  unfold copy_from. induction own as [|[k t] own IH]; intros H; [done|].
  simpl. rewrite (H k t) by left. rewrite copy__same. f_equal.
  apply IH. intros k' t' Hin. apply H. by right.
Qed.

Lemma index_errors_same own sd :
  (∀ k t, (k, t) ∈ own → sd_lookup k sd = Some t) →
  index_errors own sd = [].
Proof.
  intros Hown. unfold index_errors. apply omap_none.
  intros [k t] Hin. simpl. rewrite (Hown k t Hin).
  by rewrite no_first_element_same.
Qed.

Lemma loadable_same own sd :
  (∀ k t, (k, t) ∈ own → sd_lookup k sd = Some t) →
  (∀ k, k ∈ map fst sd → k ∈ map fst own) →
  loadable own sd = true.
Proof.
  intros Hown Hsd. unfold loadable, missing_keys, unexpected_keys, size_mismatch.
  rewrite !filter_none, omap_none; [done | | |].
  - intros [k t] Hin. simpl. rewrite (Hown k t Hin), first_element_same.
    unfold shape_eqb. by rewrite bool_decide_eq_true_2.
  - intros k Hk. apply Hsd in Hk. apply sd_lookup_keys in Hk as [t Ht].
    unfold sd_has. by rewrite Ht.
  - intros k Hk. apply list_elem_of_fmap in Hk as [[k' t] [-> Hin]].
    simpl. unfold sd_has. by rewrite (Hown k' t Hin).
Qed.

Lemma prefix_keys_elem_of p sd k t :
  (k, t) ∈ sd → (p +:+ k, t) ∈ prefix_keys p sd.
Proof.
  intros H. unfold prefix_keys. apply list_elem_of_fmap. by exists (k, t).
Qed.

Lemma prefix_keys_NoDup p sd :
  NoDup (map fst sd) → NoDup (map fst (prefix_keys p sd)).
Proof.
  intros H. unfold prefix_keys. rewrite map_map. simpl.
  rewrite <- (map_map fst (String.append p)).
  by apply (NoDup_fmap_2 (String.append p)).
Qed.

(** X13: round trip.  When the parameter names of a model are distinct, the
    state dict of the wrapped model loads back into it through line 139 and
    leaves the model exactly as it was. *)
Theorem wrapped_state_dict_round_trip (W : World) (m : Model) :
  NoDup (map fst (state_dict m)) →
  load_full W m (ddp_state_dict m) = inr m.
Proof.
  intros Hnd.
  assert (Hd : NoDup (map fst (ddp_state_dict m)))
    by (by apply prefix_keys_NoDup).
  unfold load_full, load_check.
  rewrite index_errors_same, loadable_same.
  - rewrite !copy_from_same.
    + by destruct m as [bb [n hp]].
    + intros k t Hin. apply sd_lookup_NoDup; [done|].
      rewrite <- append_assoc_module. apply prefix_keys_elem_of.
      unfold state_dict. apply elem_of_app. right.
      by apply prefix_keys_elem_of.
    + intros k t Hin. apply sd_lookup_NoDup; [done|].
      apply prefix_keys_elem_of. unfold state_dict.
      apply elem_of_app. by left.
  - intros k t Hin. by apply sd_lookup_NoDup.
  - done.
  - intros k t Hin. by apply sd_lookup_NoDup.
Qed.

Lemma wrapped_state_dict_round_trip_witness :
  load_full W0 built_resnet (ddp_state_dict built_resnet) = inr built_resnet.
Proof.
  apply (wrapped_state_dict_round_trip W0 built_resnet).
  vm_compute. repeat constructor; intros H;
    repeat (apply elem_of_cons in H as [H|H]; [discriminate|]);
    by apply elem_of_nil in H.
Defined.

Lemma prefix_append p s : String.prefix p (p +:+ s) = true.
Proof.
  induction p as [|c p IH]; [by destruct s|].
  simpl. by destruct (ascii_dec c c).
Qed.

Lemma sd_has_elem k sd : sd_has k sd = true → k ∈ map fst sd.
Proof.
  unfold sd_has. destruct (sd_lookup k sd) as [t|] eqn:E; [|done].
  intros _. by eapply sd_lookup_key_elem.
Qed.

(** X14: for every model other than clip the checkpoint must carry the
    names of the wrapped model.  The state dict of the bare model, whose
    names lack the prefix module., is refused with the load error as soon
    as the model has a parameter. *)
Theorem bare_state_dict_refused (W : World) (m : Model) :
  state_dict m ≠ [] →
  (∀ k, k ∈ map fst (state_dict m) → String.prefix "module." k = false) →
  load_full W m (state_dict m) = inl load_error.
Proof.
  intros Hne Hbare. unfold load_full, load_check.
  assert (Hi : index_errors (ddp_state_dict m) (state_dict m) = []).
  { unfold index_errors. apply omap_none. intros [k t] Hin. simpl.
    destruct (sd_lookup k (state_dict m)) as [src|] eqn:E; [|done].
    apply sd_lookup_key_elem, Hbare in E.
    unfold ddp_state_dict, prefix_keys in Hin.
    apply list_elem_of_fmap in Hin as [[k0 t0] [[= -> ->] _]].
    simpl in E. by rewrite prefix_append in E. }
  rewrite Hi.
  destruct (loadable (ddp_state_dict m) (state_dict m)) eqn:E; [|done].
  apply loadable_true in E as (Hm & _ & _).
  unfold ddp_state_dict in Hm.
  destruct (state_dict m) as [|[k0 t0] rest] eqn:Es; [done|].
  assert (Hin : ("module." +:+ k0)
                ∈ map fst (prefix_keys "module." ((k0, t0) :: rest)))
    by (simpl; left).
  destruct (missing_keys_nil _ _ _ Hm Hin) as [t Ht].
  assert (Hk : ("module." +:+ k0) ∈ map fst ((k0, t0) :: rest)).
  { apply sd_has_elem. unfold sd_has. by rewrite Ht. }
  apply Hbare in Hk. by rewrite prefix_append in Hk.
Qed.

Lemma bare_state_dict_refused_witness :
  load_full W0 built_resnet (state_dict built_resnet) = inl load_error.
Proof.
  apply (bare_state_dict_refused W0 built_resnet).
  - discriminate.
  - intros k Hk. vm_compute in Hk.
    repeat (apply elem_of_cons in Hk as [->|Hk]; [reflexivity|]).
    by apply elem_of_nil in Hk.
Defined.

(** ** A run that gets through *)

Lemma double_overflow_large : (1 < double_overflow)%Z.
Proof. by vm_compute. Qed.

Lemma true_div_100_percent n :
  (0 ≤ n ≤ 100)%Z → true_div_100 n = inr (Qred (n # 100)).
Proof.
  intros H. unfold true_div_100. pose proof double_overflow_large as Hd.
  rewrite (proj2 (Z.leb_gt _ _)); [done | lia].
Qed.

Lemma locals_ratio_percent a :
  arg_mask_type a = "nomask" ∨ (0 ≤ arg_ratio a ≤ 100)%Z →
  (0 ≤ l_ratio (locals a) ≤ 100)%Z.
Proof.
  intros H. unfold locals.
  destruct (String.eqb (arg_mask_type a) "nomask") eqn:E; cbn [negb l_ratio].
  - lia.
  - apply String.eqb_neq in E. by destruct H.
Qed.

Lemma locals_args_fields a :
  arg_pretrained (l_args (locals a)) = arg_pretrained a
  ∧ arg_lr (l_args (locals a)) = arg_lr a.
Proof. unfold locals. by destruct (negb _). Qed.

Lemma supported_recognised s : s ∈ supported_names → recognised s.
Proof.
  unfold supported_names, recognised. intros H.
  repeat (apply elem_of_cons in H as [->|H]; [by eauto|]).
  by apply elem_of_nil in H.
Qed.

Lemma healthy_module_level W :
  healthy W → is_Some (w_environ W !! "LOCAL_RANK") →
  module_level W = (module_events, inr tt).
Proof. intros [HW _] He. by apply module_level_ok. Qed.

(** X16: end to end.  In a world where LOCAL_RANK is set and no
    collaborator raises, every accepted command line with [--pretrained],
    one of the model names RN50, RN50_mod and clip, and either nomask or a
    ratio between 0 and 100 runs through: the script returns normally and
    its last action is the call of the pruning and fine-tuning loop, with
    the learning rate of the command line. *)
Theorem pretrained_run_completes (W : World) (cl : CommandLine) (a : Args) :
  healthy W →
  is_Some (w_environ W !! "LOCAL_RANK") →
  parse_args cl = inr a →
  arg_pretrained a = true →
  arg_model_name a ∈ supported_names →
  arg_mask_type a = "nomask" ∨ (0 ≤ arg_ratio a ≤ 100)%Z →
  outcome (program W cl) = inr tt
  ∧ ∃ model,
      last (trace (program W cl))
      = Some (EvIterativePruningFinetuning model (arg_lr a)
                (l_args (locals a))).
Proof.
  intros HW He Hp Hpre Hname Hratio.
  rewrite (program_module_ok _ _ (healthy_module_level _ HW He)).
  pose proof (locals_ratio_percent _ Hratio) as HL.
  destruct (locals_args_fields a) as [Hpre' Hlr'].
  set (a' := l_args (locals a)) in *.
  set (k := {| local_rank := arg_local_rank a';
               nhead := nhead main_defaults;
               num_layers := num_layers main_defaults;
               num_epochs := 5;
               ratio := Qred (l_ratio (locals a) # 100);
               batch_size := arg_batch_size a';
               model_name := arg_model_name a';
               band := arg_band a';
               mask_type := Some (arg_mask_type a');
               pretrained := arg_pretrained a';
               args := Some a' |}).
  assert (Hk : kwargs (locals a) = inr k).
  { unfold kwargs. by rewrite (true_div_100_percent _ HL). }
  assert (Hr : in_range (ratio k)).
  { cbn [k ratio]. by rewrite in_range_Qred, in_range_percent. }
  assert (Hrec : recognised (model_name k)).
  { cbn [k model_name]. subst a'. rewrite locals_model_name.
    by apply supported_recognised. }
  destruct (main_reaches_restore W k a' HW Hr eq_refl Hrec)
    as (tb & model & before & _ & _ & Hmain & _).
  assert (Hrp : restore_and_prune W a' model
                = ([EvIterativePruningFinetuning model (arg_lr a) a'],
                   inr tt)).
  { unfold restore_and_prune.
    rewrite restore_pretrained by (by rewrite Hpre').
    rewrite ret_bind. unfold prune. rewrite <- Hlr'. by run HW. }
  rewrite Hrp in Hmain.
  assert (Hentry : entry W cl
                   = ([EvParseArgs; EvPrintConfig (l_ratio (locals a)) a']
                      ++ before
                      ++ [EvIterativePruningFinetuning model (arg_lr a) a'],
                      inr tt)).
  { unfold entry. rewrite (call_emit _ HW), Hp, emit_bind.
    rewrite lift_value_bind. cbv zeta. fold a'.
    rewrite emit_bind, Hk, lift_value_bind, Hmain. reflexivity. }
  rewrite Hentry. split; [done|]. exists model.
  unfold trace. cbn [fst]. by rewrite !app_assoc, last_snoc.
Qed.

Lemma pretrained_run_completes_witness :
  outcome (program W0 (mkCommandLine None None None None true false None
                         None None None false false false None None None
                         None None)) = inr tt
  ∧ ∃ model,
      last (trace (program W0 (mkCommandLine None None None None true false
                                 None None None None false false false None
                                 None None None None)))
      = Some (EvIterativePruningFinetuning model (arg_lr pretrained_args)
                (l_args (locals pretrained_args))).
Proof.
  apply (pretrained_run_completes W0 _ pretrained_args).
  - split; [reflexivity | intros n Hn; exact Hn].
  - by eexists.
  - reflexivity.
  - reflexivity.
  - by apply (bool_decide_unpack _).
  - right. simpl. lia.
Defined.

(** ** What a successful restore requires and keeps *)





Lemma loaded_from_shape W p sd own new k t t' :
  loaded_from W p sd own new →
  sd_lookup k own = Some t → sd_lookup k new = Some t' →
  t_shape t = t_shape t'.
Proof.
  intros [_ Hv] Ht Ht'. destruct (Hv k t Ht) as (src & _ & Hn).
  rewrite Hn in Ht'. by injection Ht' as <-.
Qed.

(** X18: a successful restore, into the head or into the whole model,
    keeps the model's layout: the parameter names and their order, the
    number of inputs of the head, and the shape of every parameter are what
    they were before the load; only values change. *)
Theorem restore_keeps_layout (W : World) (m m' : Model) (sd : StateDict) :
  load_head W m sd = inr m' ∨ load_full W m sd = inr m' →
  map fst (backbone m') = map fst (backbone m)
  ∧ map fst (head_params (fc m')) = map fst (head_params (fc m))
  ∧ in_features (fc m') = in_features (fc m)
  ∧ (∀ k t t', sd_lookup k (backbone m) = Some t →
       sd_lookup k (backbone m') = Some t' → t_shape t = t_shape t')
  ∧ (∀ k t t', sd_lookup k (head_params (fc m)) = Some t →
       sd_lookup k (head_params (fc m')) = Some t' → t_shape t = t_shape t').
Proof.
  intros [H|H].
  - destruct (load_head_spec _ _ _ _ H) as (Hb & Hn & Hh).
    rewrite Hb. split; [done|]. split; [by destruct Hh|].
    split; [done|]. split.
    + intros k t t' Ht Ht'. congruence.
    + intros k t t'. by eapply loaded_from_shape.
  - destruct (load_full_spec _ _ _ _ H) as (Hn & Hb & Hh).
    split; [by destruct Hb|]. split; [by destruct Hh|].
    split; [done|]. split.
    + intros k t t'. by eapply loaded_from_shape.
    + intros k t t'. by eapply loaded_from_shape.
Qed.

Lemma restore_keeps_layout_witness :
  let m' := {| backbone := [("conv1.weight", ones [2; 3; 1; 1]%nat)];
               fc := mkHead 2 (linear_params ones 2 1) |} in
  map fst (backbone m') = map fst (backbone built_resnet)
  ∧ map fst (head_params (fc m')) = map fst (head_params (fc built_resnet))
  ∧ in_features (fc m') = in_features (fc built_resnet)
  ∧ (∀ k t t', sd_lookup k (backbone built_resnet) = Some t →
       sd_lookup k (backbone m') = Some t' → t_shape t = t_shape t')
  ∧ (∀ k t t', sd_lookup k (head_params (fc built_resnet)) = Some t →
       sd_lookup k (head_params (fc m')) = Some t' → t_shape t = t_shape t').
Proof.
  apply (restore_keeps_layout W0 built_resnet _ full_checkpoint).
  right. reflexivity.
Defined.
